(** * The voice session client (services/voiceWebSocket.ts) and the
      component that owns it (components/AIVoiceInterface.tsx)

    A shallow embedding of the class [VoiceWebSocketClient] as an
    event-driven state machine.  The browser is the environment: it
    delivers socket events, timer expirations, recorder blobs, decode
    results and playback-ended events one at a time, and every handler of
    the class runs to completion, or to its next [await], before the next
    event is delivered.  A world holds the fields of the client, the
    browser objects it created (sockets, timers, recorders, suspended
    [playAudioQueue] activations), the state of the calling component, and
    the traces of what was sent, played, logged and called back.

    The properties follow the definitions: inbound text frames, the
    session, capture against the agent's speech, the two timers, playback,
    and closed instances at the end. *)

From Stdlib Require Import ZArith List String Ascii Bool Lia DecimalString.
From Stdlib.Strings Require Import Byte.
From stdpp Require Import base list strings.

Local Open Scope string_scope.
#[local] Set Warnings "-register-all".

(** ** JavaScript values as far as the client looks at them *)

Module JS.

(** Values that [JSON.parse] can return, plus [undefined] for a missing
    property.  Numbers are the integral ones. *)
Inductive JSValue : Type :=
  | JUndefined
  | JNull
  | JBool (b : bool)
  | JNum (n : Z)
  | JStr (s : string)
  | JArr (items : list JSValue)
  | JObj (fields : list (string * JSValue)).

(** ToBoolean. *)
Definition truthy (v : JSValue) : bool :=
  match v with
  | JUndefined | JNull => false
  | JBool b => b
  | JNum n => negb (n =? 0)%Z
  | JStr s => negb (String.eqb s EmptyString)
  | JArr _ | JObj _ => true
  end.

(** [a || b] *)
Definition js_or (a b : JSValue) : JSValue := if truthy a then a else b.

(** Own property of an object literal; [JSON.parse] keeps the last of
    duplicated keys. *)
Fixpoint own_prop (k : string) (fields : list (string * JSValue)) : JSValue :=
  match fields with
  | [] => JUndefined
  | (k', v) :: rest =>
      match own_prop k rest with
      | JUndefined => if String.eqb k k' then v else JUndefined
      | found => found
      end
  end.

(** [v.k] for the property names the client reads ([type], [session_id],
    [text], [is_final], [message], [spoken_text], [has_pending_work],
    [session_complete]): none of them lives on a prototype, so primitives
    and arrays answer [undefined]; reading a property of [null] or
    [undefined] throws a TypeError ([None]). *)
Definition get_prop (v : JSValue) (k : string) : option JSValue :=
  match v with
  | JUndefined | JNull => None
  | JObj fields => Some (own_prop k fields)
  | _ => Some JUndefined
  end.

(** [v === "lit"] *)
Definition is_str (v : JSValue) (lit : string) : bool :=
  match v with
  | JStr s => String.eqb s lit
  | _ => false
  end.

(** *** JSON.stringify *)

Definition dquote : ascii := "034"%char.
Definition backslash : ascii := "092"%char.

Definition hex_digit (n : nat) : ascii :=
  ascii_of_nat (if Nat.ltb n 10 then 48 + n else 87 + n).

(** One character of a string literal: quote and backslash are escaped,
    control characters use the short escapes or [\u00XX]. *)
Definition escape_char (c : ascii) : string :=
  let n := nat_of_ascii c in
  if Ascii.eqb c dquote then String backslash (String dquote EmptyString)
  else if Ascii.eqb c backslash then String backslash (String backslash EmptyString)
  else if Nat.eqb n 8 then String backslash "b"
  else if Nat.eqb n 9 then String backslash "t"
  else if Nat.eqb n 10 then String backslash "n"
  else if Nat.eqb n 12 then String backslash "f"
  else if Nat.eqb n 13 then String backslash "r"
  else if Nat.ltb n 32 then
    String backslash ("u00" ++ String (hex_digit (n / 16)) (String (hex_digit (n mod 16)) EmptyString))
  else String c EmptyString.

Fixpoint escape_string (s : string) : string :=
  match s with
  | EmptyString => EmptyString
  | String c rest => escape_char c ++ escape_string rest
  end.

Definition quote (s : string) : string :=
  String dquote (escape_string s ++ String dquote EmptyString).

Definition number_to_string (n : Z) : string :=
  NilZero.string_of_int (Z.to_int n).

Fixpoint join_comma (parts : list string) : string :=
  match parts with
  | [] => EmptyString
  | [p] => p
  | p :: rest => p ++ "," ++ join_comma rest
  end.

(** [JSON.stringify(v)] for a value whose top level is defined.  Inside an
    object a property holding [undefined] is skipped, inside an array it is
    written [null]. *)
Fixpoint JSON_stringify (v : JSValue) : string :=
  match v with
  | JUndefined => "undefined"
  | JNull => "null"
  | JBool true => "true"
  | JBool false => "false"
  | JNum n => number_to_string n
  | JStr s => quote s
  | JArr items =>
      "[" ++ join_comma
               ((fix each (l : list JSValue) : list string :=
                   match l with
                   | [] => []
                   | JUndefined :: l' => "null" :: each l'
                   | x :: l' => JSON_stringify x :: each l'
                   end) items) ++ "]"
  | JObj fields =>
      "{" ++ join_comma
               ((fix each (l : list (string * JSValue)) : list string :=
                   match l with
                   | [] => []
                   | (_, JUndefined) :: l' => each l'
                   | (k, x) :: l' => (quote k ++ ":" ++ JSON_stringify x) :: each l'
                   end) fields) ++ "}"
  end.

(** *** A JSON reader

    [JSON.parse] belongs to the runtime.  The client below takes it as a
    parameter; [json_parse] is an instance for a subset of the grammar
    (objects, arrays, strings with the short escapes, integers, literals),
    enough to run the client on concrete frames. *)

Definition is_ws (c : ascii) : bool :=
  let n := nat_of_ascii c in
  Nat.eqb n 32 || Nat.eqb n 9 || Nat.eqb n 10 || Nat.eqb n 13.

Definition is_digit (c : ascii) : bool :=
  let n := nat_of_ascii c in Nat.leb 48 n && Nat.leb n 57.

Fixpoint skip_ws (cs : list ascii) : list ascii :=
  match cs with
  | c :: rest => if is_ws c then skip_ws rest else cs
  | [] => []
  end.

Fixpoint read_digits (acc : Z) (cs : list ascii) : Z * list ascii :=
  match cs with
  | c :: rest =>
      if is_digit c
      then read_digits (10 * acc + Z.of_nat (nat_of_ascii c - 48)) rest
      else (acc, cs)
  | [] => (acc, [])
  end.

Definition read_number (cs : list ascii) : option (JSValue * list ascii) :=
  match cs with
  | "-"%char :: (d :: _) as rest =>
      if is_digit d then let '(n, r) := read_digits 0 rest in Some (JNum (- n), r) else None
  | d :: _ =>
      if is_digit d then let '(n, r) := read_digits 0 cs in Some (JNum n, r) else None
  | [] => None
  end.

(** The characters of a string literal after its opening quote. *)
Fixpoint read_string (cs : list ascii) : option (string * list ascii) :=
  match cs with
  | [] => None
  | c :: rest =>
      if Ascii.eqb c dquote then Some (EmptyString, rest)
      else if Ascii.eqb c backslash then
        match rest with
        | e :: rest' =>
            let unescaped :=
              if Ascii.eqb e dquote then Some dquote
              else if Ascii.eqb e backslash then Some backslash
              else if Ascii.eqb e "/" then Some "/"%char
              else if Ascii.eqb e "n" then Some "010"%char
              else if Ascii.eqb e "t" then Some "009"%char
              else if Ascii.eqb e "r" then Some "013"%char
              else if Ascii.eqb e "b" then Some "008"%char
              else if Ascii.eqb e "f" then Some "012"%char
              else None in
            match unescaped, read_string rest' with
            | Some u, Some (s, r) => Some (String u s, r)
            | _, _ => None
            end
        | [] => None
        end
      else if Nat.ltb (nat_of_ascii c) 32 then None
      else
        match read_string rest with
        | Some (s, r) => Some (String c s, r)
        | None => None
        end
  end.

Fixpoint strip_prefix (p cs : list ascii) : option (list ascii) :=
  match p, cs with
  | [], _ => Some cs
  | a :: p', c :: cs' => if Ascii.eqb a c then strip_prefix p' cs' else None
  | _ :: _, [] => None
  end.

Fixpoint read_value (fuel : nat) (cs : list ascii) : option (JSValue * list ascii) :=
  match fuel with
  | O => None
  | S fuel' =>
      let read_items :=
        fix read_items (n : nat) (cs : list ascii) : option (list JSValue * list ascii) :=
          match n with
          | O => None
          | S n' =>
              match read_value fuel' cs with
              | Some (v, r) =>
                  match skip_ws r with
                  | ","%char :: r' =>
                      match read_items n' r' with
                      | Some (vs, r'') => Some (v :: vs, r'')
                      | None => None
                      end
                  | "]"%char :: r' => Some ([v], r')
                  | _ => None
                  end
              | None => None
              end
          end in
      let read_fields :=
        fix read_fields (n : nat) (cs : list ascii) : option (list (string * JSValue) * list ascii) :=
          match n with
          | O => None
          | S n' =>
              match skip_ws cs with
              | q :: r0 =>
                  if Ascii.eqb q dquote then
                    match read_string r0 with
                    | Some (k, r1) =>
                        match skip_ws r1 with
                        | ":"%char :: r2 =>
                            match read_value fuel' r2 with
                            | Some (v, r3) =>
                                match skip_ws r3 with
                                | ","%char :: r4 =>
                                    match read_fields n' r4 with
                                    | Some (fs, r5) => Some ((k, v) :: fs, r5)
                                    | None => None
                                    end
                                | "}"%char :: r4 => Some ([(k, v)], r4)
                                | _ => None
                                end
                            | None => None
                            end
                        | _ => None
                        end
                    | None => None
                    end
                  else None
              | [] => None
              end
          end in
      match skip_ws cs with
      | [] => None
      | c :: rest =>
          if Ascii.eqb c dquote then
            match read_string rest with
            | Some (s, r) => Some (JStr s, r)
            | None => None
            end
          else if Ascii.eqb c "{" then
            match skip_ws rest with
            | "}"%char :: r => Some (JObj [], r)
            | _ =>
                match read_fields (S (length rest)) rest with
                | Some (fs, r) => Some (JObj fs, r)
                | None => None
                end
            end
          else if Ascii.eqb c "[" then
            match skip_ws rest with
            | "]"%char :: r => Some (JArr [], r)
            | _ =>
                match read_items (S (length rest)) rest with
                | Some (vs, r) => Some (JArr vs, r)
                | None => None
                end
            end
          else if Ascii.eqb c "t" then
            match strip_prefix (list_ascii_of_string "rue") rest with
            | Some r => Some (JBool true, r) | None => None end
          else if Ascii.eqb c "f" then
            match strip_prefix (list_ascii_of_string "alse") rest with
            | Some r => Some (JBool false, r) | None => None end
          else if Ascii.eqb c "n" then
            match strip_prefix (list_ascii_of_string "ull") rest with
            | Some r => Some (JNull, r) | None => None end
          else read_number (c :: rest)
      end
  end.

(** The whole text must be one value; [None] is the SyntaxError. *)
Definition json_parse (text : string) : option JSValue :=
  let cs := list_ascii_of_string text in
  match read_value (S (length cs)) cs with
  | Some (v, r) => match skip_ws r with [] => Some v | _ => None end
  | None => None
  end.

End JS.

(** ** The client *)

Module Client.
Import JS.

Definition ArrayBuffer : Type := list Byte.byte.

(** *** The browser objects the client holds *)

Inductive ReadyState : Type := CONNECTING | OPEN | CLOSING | CLOSED.

Definition is_open (r : ReadyState) : bool :=
  match r with OPEN => true | _ => false end.

Definition is_closed (r : ReadyState) : bool :=
  match r with CLOSED => true | _ => false end.

Inductive Payload : Type :=
  | TextData (text : string)
  | BinaryData (bytes : ArrayBuffer).

Inductive Frame : Type :=
  | BinaryFrame (data : ArrayBuffer)
  | TextFrame (data : string).

(** Who awaits the promise of a [connect] call: the caller of the class, or
    the reconnect timer with its [.catch(console.error)]. *)
Inductive Origin : Type := ByCaller | ByReconnect.

Inductive PromiseState : Type := Pending | Resolved | Rejected.

(** One [new WebSocket(wsUrl)].  Its four handlers close over the
    [businessId] and [userId] of the [connect] call that created it. *)
Record WebSocket : Type := {
  readyState : ReadyState;
  sent : list Payload;
  businessId : Z;
  userId : Z;
  origin : Origin;
  promise : PromiseState
}.

Inductive RecorderState : Type := recording | inactive.

Inductive JSError : Type :=
  | SyntaxError
  | TypeError
  | ReferenceError (name : string)
  | Error (message : string)
  | DOMException (name message : string).

Inductive Console : Type :=
  | console_log (text : string)
  | console_error (text : string).

(** A [playAudioQueue] activation suspended at one of its two [await]s.
    [notify] is the [event.data] of the [onmessage] activation that awaits
    this loop. *)
Inductive Loop : Type :=
  | AwaitDecode (audioData notify : ArrayBuffer)
  | AwaitEnded (audioData notify : ArrayBuffer)
  | Finished.

(** What the output device does: [source.start()] and the source's
    [ended] event, with the loop that owns the source. *)
Inductive PlayEvent : Type :=
  | PlayStart (loop : nat) (audioData : ArrayBuffer)
  | PlayEnd (loop : nat) (audioData : ArrayBuffer).

(** Invocations of the callbacks of [VoiceClientConfig]. *)
Inductive Call : Type :=
  | CallSessionInitialized (sessionId : JSValue)
  | CallTranscription (text isFinal : JSValue)
  | CallProcessing (message : JSValue)
  | CallAgentSpeaking (text : JSValue)
  | CallAgentFinished (sessionComplete : JSValue)
  | CallAudioReceived (audioData : ArrayBuffer)
  | CallInterrupted (spokenText hasPendingWork : JSValue)
  | CallError (error : JSValue)
  | CallDisconnected
  | CallTimeout.

(** The private fields of the class ([config] and the three constants
    apart). *)
Record Fields : Type := {
  ws : option nat;
  mediaRecorder : option nat;
  audioContext : option nat;
  audioQueue : list ArrayBuffer;
  isPlaying : bool;
  reconnectAttempts : nat;
  sessionId : JSValue;
  isConnected : bool;
  turnEndTimer : option nat
}.

Definition maxReconnectAttempts : nat := 3.
Definition reconnectDelay : Z := 2000.
Definition silenceDuration : Z := 2000.

Section WithCaller.

(** The state of the code that owns the client (a React component), which
    the callbacks update. *)
Context {U : Type}.

(** What a callback does: the caller state it leaves, whether it threw, and
    the timeouts it set (delay and deferred update). *)
Record CbResult : Type := {
  cb_ui : U;
  cb_threw : option JSError;
  cb_timers : list (Z * (U -> U))
}.

Record VoiceClientConfig : Type := {
  onSessionInitialized : option (JSValue -> U -> CbResult);
  onTranscription : option (JSValue -> JSValue -> U -> CbResult);
  onProcessing : option (JSValue -> U -> CbResult);
  onAgentSpeaking : option (JSValue -> U -> CbResult);
  onAgentFinished : option (JSValue -> U -> CbResult);
  onAudioReceived : option (ArrayBuffer -> U -> CbResult);
  onInterrupted : option (JSValue -> JSValue -> U -> CbResult);
  onError : option (JSValue -> U -> CbResult);
  onDisconnected : option (U -> CbResult);
  onTimeout : option (U -> CbResult)
}.

Inductive TimerAction : Type :=
  | TurnEndTimeout
  | ReconnectTimeout (businessId userId : Z)
  | CallerTimeout (update : U -> U).

Record Timer : Type := {
  timer_id : nat;
  due : Z;
  action : TimerAction
}.

(** The client object together with the part of the browser it talks to
    and the traces of what it did. *)
Record World : Type := {
  this : Fields;
  sockets : list WebSocket;
  timers : list Timer;
  nextTimer : nat;
  now : Z;
  recorders : list RecorderState;
  micRequests : nat;
  blobReads : list ArrayBuffer;
  loops : list Loop;
  contexts : nat;
  ui : U;
  calls : list Call;
  console : list Console;
  playlog : list PlayEvent
}.

(** Field updates. *)

Definition with_this (f : Fields -> Fields) (w : World) : World :=
  {| this := f (this w); sockets := sockets w; timers := timers w;
     nextTimer := nextTimer w; now := now w; recorders := recorders w;
     micRequests := micRequests w; blobReads := blobReads w; loops := loops w;
     contexts := contexts w; ui := ui w; calls := calls w;
     console := console w; playlog := playlog w |}.

Definition set_ws (v : option nat) : World -> World :=
  with_this (fun t =>
    {| ws := v; mediaRecorder := mediaRecorder t; audioContext := audioContext t;
       audioQueue := audioQueue t; isPlaying := isPlaying t;
       reconnectAttempts := reconnectAttempts t; sessionId := sessionId t;
       isConnected := isConnected t; turnEndTimer := turnEndTimer t |}).

Definition set_mediaRecorder (v : option nat) : World -> World :=
  with_this (fun t =>
    {| ws := ws t; mediaRecorder := v; audioContext := audioContext t;
       audioQueue := audioQueue t; isPlaying := isPlaying t;
       reconnectAttempts := reconnectAttempts t; sessionId := sessionId t;
       isConnected := isConnected t; turnEndTimer := turnEndTimer t |}).

Definition set_audioContext (v : option nat) : World -> World :=
  with_this (fun t =>
    {| ws := ws t; mediaRecorder := mediaRecorder t; audioContext := v;
       audioQueue := audioQueue t; isPlaying := isPlaying t;
       reconnectAttempts := reconnectAttempts t; sessionId := sessionId t;
       isConnected := isConnected t; turnEndTimer := turnEndTimer t |}).

Definition set_audioQueue (v : list ArrayBuffer) : World -> World :=
  with_this (fun t =>
    {| ws := ws t; mediaRecorder := mediaRecorder t; audioContext := audioContext t;
       audioQueue := v; isPlaying := isPlaying t;
       reconnectAttempts := reconnectAttempts t; sessionId := sessionId t;
       isConnected := isConnected t; turnEndTimer := turnEndTimer t |}).

Definition set_isPlaying (v : bool) : World -> World :=
  with_this (fun t =>
    {| ws := ws t; mediaRecorder := mediaRecorder t; audioContext := audioContext t;
       audioQueue := audioQueue t; isPlaying := v;
       reconnectAttempts := reconnectAttempts t; sessionId := sessionId t;
       isConnected := isConnected t; turnEndTimer := turnEndTimer t |}).

Definition set_reconnectAttempts (v : nat) : World -> World :=
  with_this (fun t =>
    {| ws := ws t; mediaRecorder := mediaRecorder t; audioContext := audioContext t;
       audioQueue := audioQueue t; isPlaying := isPlaying t;
       reconnectAttempts := v; sessionId := sessionId t;
       isConnected := isConnected t; turnEndTimer := turnEndTimer t |}).

Definition set_sessionId (v : JSValue) : World -> World :=
  with_this (fun t =>
    {| ws := ws t; mediaRecorder := mediaRecorder t; audioContext := audioContext t;
       audioQueue := audioQueue t; isPlaying := isPlaying t;
       reconnectAttempts := reconnectAttempts t; sessionId := v;
       isConnected := isConnected t; turnEndTimer := turnEndTimer t |}).

Definition set_isConnected (v : bool) : World -> World :=
  with_this (fun t =>
    {| ws := ws t; mediaRecorder := mediaRecorder t; audioContext := audioContext t;
       audioQueue := audioQueue t; isPlaying := isPlaying t;
       reconnectAttempts := reconnectAttempts t; sessionId := sessionId t;
       isConnected := v; turnEndTimer := turnEndTimer t |}).

Definition set_turnEndTimer (v : option nat) : World -> World :=
  with_this (fun t =>
    {| ws := ws t; mediaRecorder := mediaRecorder t; audioContext := audioContext t;
       audioQueue := audioQueue t; isPlaying := isPlaying t;
       reconnectAttempts := reconnectAttempts t; sessionId := sessionId t;
       isConnected := isConnected t; turnEndTimer := v |}).

Definition set_sockets (v : list WebSocket) (w : World) : World :=
  {| this := this w; sockets := v; timers := timers w;
     nextTimer := nextTimer w; now := now w; recorders := recorders w;
     micRequests := micRequests w; blobReads := blobReads w; loops := loops w;
     contexts := contexts w; ui := ui w; calls := calls w;
     console := console w; playlog := playlog w |}.

Definition set_timers (v : list Timer) (n : nat) (w : World) : World :=
  {| this := this w; sockets := sockets w; timers := v;
     nextTimer := n; now := now w; recorders := recorders w;
     micRequests := micRequests w; blobReads := blobReads w; loops := loops w;
     contexts := contexts w; ui := ui w; calls := calls w;
     console := console w; playlog := playlog w |}.

Definition set_now (v : Z) (w : World) : World :=
  {| this := this w; sockets := sockets w; timers := timers w;
     nextTimer := nextTimer w; now := v; recorders := recorders w;
     micRequests := micRequests w; blobReads := blobReads w; loops := loops w;
     contexts := contexts w; ui := ui w; calls := calls w;
     console := console w; playlog := playlog w |}.

Definition set_recorders (v : list RecorderState) (w : World) : World :=
  {| this := this w; sockets := sockets w; timers := timers w;
     nextTimer := nextTimer w; now := now w; recorders := v;
     micRequests := micRequests w; blobReads := blobReads w; loops := loops w;
     contexts := contexts w; ui := ui w; calls := calls w;
     console := console w; playlog := playlog w |}.

Definition set_micRequests (v : nat) (w : World) : World :=
  {| this := this w; sockets := sockets w; timers := timers w;
     nextTimer := nextTimer w; now := now w; recorders := recorders w;
     micRequests := v; blobReads := blobReads w; loops := loops w;
     contexts := contexts w; ui := ui w; calls := calls w;
     console := console w; playlog := playlog w |}.

Definition set_blobReads (v : list ArrayBuffer) (w : World) : World :=
  {| this := this w; sockets := sockets w; timers := timers w;
     nextTimer := nextTimer w; now := now w; recorders := recorders w;
     micRequests := micRequests w; blobReads := v; loops := loops w;
     contexts := contexts w; ui := ui w; calls := calls w;
     console := console w; playlog := playlog w |}.

Definition set_loops (v : list Loop) (w : World) : World :=
  {| this := this w; sockets := sockets w; timers := timers w;
     nextTimer := nextTimer w; now := now w; recorders := recorders w;
     micRequests := micRequests w; blobReads := blobReads w; loops := v;
     contexts := contexts w; ui := ui w; calls := calls w;
     console := console w; playlog := playlog w |}.

Definition set_contexts (v : nat) (w : World) : World :=
  {| this := this w; sockets := sockets w; timers := timers w;
     nextTimer := nextTimer w; now := now w; recorders := recorders w;
     micRequests := micRequests w; blobReads := blobReads w; loops := loops w;
     contexts := v; ui := ui w; calls := calls w;
     console := console w; playlog := playlog w |}.

Definition set_ui (v : U) (w : World) : World :=
  {| this := this w; sockets := sockets w; timers := timers w;
     nextTimer := nextTimer w; now := now w; recorders := recorders w;
     micRequests := micRequests w; blobReads := blobReads w; loops := loops w;
     contexts := contexts w; ui := v; calls := calls w;
     console := console w; playlog := playlog w |}.

Definition log_call (c : Call) (w : World) : World :=
  {| this := this w; sockets := sockets w; timers := timers w;
     nextTimer := nextTimer w; now := now w; recorders := recorders w;
     micRequests := micRequests w; blobReads := blobReads w; loops := loops w;
     contexts := contexts w; ui := ui w; calls := calls w ++ [c];
     console := console w; playlog := playlog w |}.

Definition log_console (c : Console) (w : World) : World :=
  {| this := this w; sockets := sockets w; timers := timers w;
     nextTimer := nextTimer w; now := now w; recorders := recorders w;
     micRequests := micRequests w; blobReads := blobReads w; loops := loops w;
     contexts := contexts w; ui := ui w; calls := calls w;
     console := console w ++ [c]; playlog := playlog w |}.

Definition log_play (e : PlayEvent) (w : World) : World :=
  {| this := this w; sockets := sockets w; timers := timers w;
     nextTimer := nextTimer w; now := now w; recorders := recorders w;
     micRequests := micRequests w; blobReads := blobReads w; loops := loops w;
     contexts := contexts w; ui := ui w; calls := calls w;
     console := console w; playlog := playlog w ++ [e] |}.

Definition set_socket (s : nat) (sock : WebSocket) (w : World) : World :=
  set_sockets (<[s := sock]> (sockets w)) w.

Definition set_loop (i : nat) (l : Loop) (w : World) : World :=
  set_loops (<[i := l]> (loops w)) w.

Definition with_readyState (r : ReadyState) (sock : WebSocket) : WebSocket :=
  {| readyState := r; sent := sent sock; businessId := businessId sock;
     userId := userId sock; origin := origin sock; promise := promise sock |}.

Definition with_sent (p : list Payload) (sock : WebSocket) : WebSocket :=
  {| readyState := readyState sock; sent := p; businessId := businessId sock;
     userId := userId sock; origin := origin sock; promise := promise sock |}.

Definition with_promise (p : PromiseState) (sock : WebSocket) : WebSocket :=
  {| readyState := readyState sock; sent := sent sock; businessId := businessId sock;
     userId := userId sock; origin := origin sock; promise := p |}.

(** *** The runtime and the caller *)

Variable JSON_parse : string -> option JSValue.
Variable config : VoiceClientConfig.

(** The continuations of the caller that awaits [connect()] and
    [startRecording()], run when the promise is rejected. *)
Variable connectRejected : U -> U.
Variable recordingRejected : JSError -> U -> U.

(** [setTimeout]: identifiers are the positive integers, in order. *)
Definition setTimeout (a : TimerAction) (delay : Z) (w : World) : nat * World :=
  let id := nextTimer w in
  (id, set_timers (timers w ++ [{| timer_id := id; due := now w + delay; action := a |}])
                  (S id) w).

Definition clearTimeout (id : nat) (w : World) : World :=
  set_timers (List.filter (fun t => negb (Nat.eqb (timer_id t) id)) (timers w))
             (nextTimer w) w.

(** Calling a registered callback: the call is recorded, the caller state
    updated, the callback's timeouts are set, and what it threw is handed
    back. *)
Definition invoke (c : Call) (h : U -> CbResult) (w : World) : World * option JSError :=
  let r := h (ui w) in
  let w1 := set_ui (cb_ui r) (log_call c w) in
  (fold_left (fun acc df => snd (setTimeout (CallerTimeout (snd df)) (fst df) acc))
             (cb_timers r) w1,
   cb_threw r).

(** *** send and sendAudio *)

(** [if (this.ws && this.ws.readyState === WebSocket.OPEN) this.ws.send(p)] *)
Definition socket_send (p : Payload) (w : World) : World :=
  match ws (this w) with
  | Some s =>
      match sockets w !! s with
      | Some sock =>
          if is_open (readyState sock)
          then set_socket s (with_sent (sent sock ++ [p]) sock) w
          else w
      | None => w
      end
  | None => w
  end.

Definition sendAudio (audioData : ArrayBuffer) : World -> World :=
  socket_send (BinaryData audioData).

Definition send (data : JSValue) : World -> World :=
  socket_send (TextData (JSON_stringify data)).

Definition handshake (businessId userId : Z) : JSValue :=
  JObj [("business_id", JNum businessId); ("user_id", JNum userId)].

Definition command (name : string) : JSValue :=
  JObj [("command", JStr name)].

(** *** handleMessage *)

Definition handleMessage (message : JSValue) (w : World) : World * option JSError :=
  match get_prop message "type" with
  | None => (w, Some TypeError)
  | Some type =>
      let w := log_console (console_log "Received message:") w in
      let field k := default JUndefined (get_prop message k) in
      if is_str type "session_initialized" then
        let w := set_sessionId (js_or (field "session_id") JNull) w in
        match onSessionInitialized config with
        | Some h =>
            if truthy (sessionId (this w))
            then invoke (CallSessionInitialized (sessionId (this w)))
                        (h (sessionId (this w))) w
            else (w, None)
        | None => (w, None)
        end
      else if is_str type "transcription" then
        match onTranscription config with
        | Some h =>
            if truthy (field "text")
            then invoke (CallTranscription (field "text") (js_or (field "is_final") (JBool false)))
                        (h (field "text") (js_or (field "is_final") (JBool false))) w
            else (w, None)
        | None => (w, None)
        end
      else if is_str type "processing" then
        match onProcessing config with
        | Some h =>
            if truthy (field "message")
            then invoke (CallProcessing (field "message")) (h (field "message")) w
            else (w, None)
        | None => (w, None)
        end
      else if is_str type "agent_speaking" then
        match onAgentSpeaking config with
        | Some h =>
            if truthy (field "text")
            then invoke (CallAgentSpeaking (field "text")) (h (field "text")) w
            else (w, None)
        | None => (w, None)
        end
      else if is_str type "agent_finished" then
        match onAgentFinished config with
        | Some h =>
            invoke (CallAgentFinished (js_or (field "session_complete") (JBool false)))
                   (h (js_or (field "session_complete") (JBool false))) w
        | None => (w, None)
        end
      else if is_str type "interrupted" then
        match onInterrupted config with
        | Some h =>
            invoke (CallInterrupted (js_or (field "spoken_text") (JStr EmptyString))
                                    (js_or (field "has_pending_work") (JBool false)))
                   (h (js_or (field "spoken_text") (JStr EmptyString))
                      (js_or (field "has_pending_work") (JBool false))) w
        | None => (w, None)
        end
      else if is_str type "error" then
        match onError config with
        | Some h =>
            if truthy (field "message")
            then invoke (CallError (field "message")) (h (field "message")) w
            else (w, None)
        | None => (w, None)
        end
      else if is_str type "timeout" then
        match onTimeout config with
        | Some h => invoke CallTimeout h w
        | None => (w, None)
        end
      else if is_str type "heartbeat" then
        (send (command "ping") w, None)
      else if is_str type "session_complete" then
        (log_console (console_log "Session completed") w, None)
      else (w, None)
  end.

(** *** playAudioQueue

    The continuation of [await this.playAudioQueue()] in [onmessage]. *)
Definition afterPlayAudioQueue (data : ArrayBuffer) (w : World) : World :=
  match onAudioReceived config with
  | Some h =>
      match invoke (CallAudioReceived data) (h data) w with
      | (w', Some _) => log_console (console_error "Uncaught (in promise)") w'
      | (w', None) => w'
      end
  | None => w
  end.

(** Leaving the [while]: the [finally] block, then the awaiting handler. *)
Definition finishLoop (i : nat) (notify : ArrayBuffer) (w : World) : World :=
  afterPlayAudioQueue notify (set_isPlaying false (set_loop i Finished w)).

(** The [while (this.audioQueue.length > 0)] loop of activation [i], from
    its test up to the next [await].  [queue] is [this.audioQueue] at the
    test.  An [ArrayBuffer] is truthy, so [if (!audioData) continue] never
    fires.  With [this.audioContext] null the call of [decodeAudioData]
    throws, the inner [catch] logs, and the loop goes on. *)
Fixpoint whileQueue (i : nat) (notify : ArrayBuffer) (queue : list ArrayBuffer)
    (w : World) : World :=
  match queue with
  | [] => finishLoop i notify w
  | audioData :: rest =>
      let w := set_audioQueue rest w in
      match audioContext (this w) with
      | Some _ => set_loop i (AwaitDecode audioData notify) w
      | None =>
          whileQueue i notify rest
            (log_console (console_error "Error playing audio chunk:") w)
      end
  end.

(** [new AudioContext(...)] is taken to succeed. *)
Definition playAudioQueue (notify : ArrayBuffer) (w : World) : World :=
  if isPlaying (this w) || Nat.eqb (length (audioQueue (this w))) 0
  then afterPlayAudioQueue notify w
  else
    let w := set_isPlaying true w in
    let w := match audioContext (this w) with
             | Some _ => w
             | None => set_contexts (S (contexts w)) (set_audioContext (Some (contexts w)) w)
             end in
    let i := length (loops w) in
    whileQueue i notify (audioQueue (this w)) (set_loops (loops w ++ [Finished]) w).

(** [decodeAudioData] settles for activation [i]. *)
Definition resumeDecode (i : nat) (ok : bool) (w : World) : World :=
  match loops w !! i with
  | Some (AwaitDecode audioData notify) =>
      if ok then
        match audioContext (this w) with
        | Some _ => set_loop i (AwaitEnded audioData notify) (log_play (PlayStart i audioData) w)
        | None =>
            whileQueue i notify (audioQueue (this w))
              (log_console (console_error "Error playing audio chunk:") w)
        end
      else
        whileQueue i notify (audioQueue (this w))
          (log_console (console_error "Error playing audio chunk:") w)
  | _ => w
  end.

(** [source.onended] fires for activation [i]. *)
Definition resumeEnded (i : nat) (w : World) : World :=
  match loops w !! i with
  | Some (AwaitEnded audioData notify) =>
      whileQueue i notify (audioQueue (this w)) (log_play (PlayEnd i audioData) w)
  | _ => w
  end.

Definition clearAudioQueue (w : World) : World :=
  set_isPlaying false (set_audioQueue [] w).

(** *** connect and the four socket handlers *)

Definition connect (businessId userId : Z) (o : Origin) (w : World) : World :=
  let s := length (sockets w) in
  set_ws (Some s)
    (set_sockets (sockets w ++
       [{| readyState := CONNECTING; sent := []; businessId := businessId;
           userId := userId; origin := o; promise := Pending |}]) w).

Definition settle (s : nat) (p : PromiseState) (w : World) : World :=
  match sockets w !! s with
  | Some sock =>
      match promise sock with
      | Pending => set_socket s (with_promise p sock) w
      | _ => w
      end
  | None => w
  end.

Definition ws_onopen (s : nat) (sock : WebSocket) (w : World) : World :=
  let w := log_console (console_log "WebSocket connected") w in
  let w := send (handshake (businessId sock) (userId sock)) w in
  let w := set_isConnected true w in
  let w := set_reconnectAttempts 0 w in
  settle s Resolved w.

(** The body of the [try] of the JSON branch. *)
Definition tryHandle (data : string) (w : World) : World * option JSError :=
  match JSON_parse data with
  | Some message => handleMessage message w
  | None => (w, Some SyntaxError)
  end.

(** The second component is what escapes the handler. *)
Definition ws_onmessage (f : Frame) (w : World) : World * option JSError :=
  match f with
  | BinaryFrame data =>
      (playAudioQueue data (set_audioQueue (audioQueue (this w) ++ [data]) w), None)
  | TextFrame data =>
      match tryHandle data w with
      | (w', Some _) => (log_console (console_error "Error parsing message:") w', None)
      | (w', None) => (w', None)
      end
  end.

Definition ws_onerror (s : nat) (sock : WebSocket) (w : World) : World :=
  let w := log_console (console_error "WebSocket error:") w in
  let '(w, thrown) :=
    match onError config with
    | Some h => invoke (CallError (JStr "Connection error occurred"))
                       (h (JStr "Connection error occurred")) w
    | None => (w, None)
    end in
  match thrown with
  | Some _ => w
  | None =>
      match promise sock with
      | Pending =>
          let w := settle s Rejected w in
          match origin sock with
          | ByCaller => set_ui (connectRejected (ui w)) w
          | ByReconnect => log_console (console_error "[object Event]") w
          end
      | _ => w
      end
  end.

Definition ws_onclose (sock : WebSocket) (w : World) : World :=
  let w := log_console (console_log "WebSocket disconnected") w in
  let w := set_isConnected false w in
  let '(w, thrown) :=
    match onDisconnected config with
    | Some h => invoke CallDisconnected h w
    | None => (w, None)
    end in
  match thrown with
  | Some _ => w
  | None =>
      if Nat.ltb (reconnectAttempts (this w)) maxReconnectAttempts then
        let w := set_reconnectAttempts (S (reconnectAttempts (this w))) w in
        let w := log_console
                   (console_log ("Reconnecting... Attempt "
                                 ++ number_to_string (Z.of_nat (reconnectAttempts (this w))))) w in
        snd (setTimeout (ReconnectTimeout (businessId sock) (userId sock)) reconnectDelay w)
      else w
  end.

(** *** Recording *)

(** The [catch] of [startRecording]; it rethrows to the caller. *)
Definition startRecordingFailed (e : JSError) (w : World) : World :=
  let w := log_console (console_error "Error starting recording:") w in
  let '(w, thrown) :=
    match onError config with
    | Some h => invoke (CallError (JStr "Failed to access microphone"))
                       (h (JStr "Failed to access microphone")) w
    | None => (w, None)
    end in
  set_ui (recordingRejected (default e thrown) (ui w)) w.

(** Up to [await navigator.mediaDevices.getUserMedia(...)]. *)
Definition startRecording (hasMediaDevices : bool) (w : World) : World :=
  if hasMediaDevices
  then set_micRequests (S (micRequests w)) w
  else startRecordingFailed
         (Error "Microphone access not available. Please access the app via localhost or HTTPS.") w.

(** After the [await]: [result] is the rejection of [getUserMedia], if any. *)
Definition startRecordingResumed (result : option JSError) (typeSupported : bool)
    (w : World) : World :=
  match micRequests w with
  | O => w
  | S n =>
      let w := set_micRequests n w in
      match result with
      | Some e => startRecordingFailed e w
      | None =>
          if typeSupported then
            let r := length (recorders w) in
            let w := set_recorders (recorders w ++ [recording]) w in
            let w := set_mediaRecorder (Some r) w in
            log_console (console_log "Recording started") w
          else startRecordingFailed (Error "Required audio format not supported") w
      end
  end.

Definition resetTurnEndTimer (w : World) : World :=
  let w := match turnEndTimer (this w) with
           | Some t => clearTimeout t w
           | None => w
           end in
  let '(id, w) := setTimeout TurnEndTimeout silenceDuration w in
  set_turnEndTimer (Some id) w.

(** The timeout set by [resetTurnEndTimer]. *)
Definition turnEndTimeout (w : World) : World :=
  if isConnected (this w)
  then send (command "turn_end") (log_console (console_log "Silence detected - ending turn") w)
  else w.

(** [mediaRecorder.ondataavailable]: the blob is handed to
    [arrayBuffer()], whose promise is then pending. *)
Definition ondataavailable (data : ArrayBuffer) (w : World) : World :=
  if Nat.ltb 0 (length data) && isConnected (this w)
  then set_blobReads (blobReads w ++ [data]) w
  else w.

(** The [then] of [event.data.arrayBuffer()]. *)
Definition onArrayBuffer (buffer : ArrayBuffer) (w : World) : World :=
  resetTurnEndTimer (sendAudio buffer w).

Definition stopRecording (w : World) : World :=
  let w := match turnEndTimer (this w) with
           | Some t => set_turnEndTimer None (clearTimeout t w)
           | None => w
           end in
  match mediaRecorder (this w) with
  | Some r =>
      match recorders w !! r with
      | Some recording =>
          let w := set_recorders (<[r := inactive]> (recorders w)) w in
          let w := set_mediaRecorder None w in
          log_console (console_log "Recording stopped") w
      | _ => w
      end
  | None => w
  end.

(** *** disconnect and the getters *)

Definition disconnect (w : World) : World :=
  let w := stopRecording w in
  let w := clearAudioQueue w in
  let w := match turnEndTimer (this w) with
           | Some t => set_turnEndTimer None (clearTimeout t w)
           | None => w
           end in
  let w := match audioContext (this w) with
           | Some _ => set_audioContext None w
           | None => w
           end in
  let w := match ws (this w) with
           | Some s =>
               let w := send (command "stop") w in
               let w := match sockets w !! s with
                        | Some sock =>
                            match readyState sock with
                            | CONNECTING | OPEN => set_socket s (with_readyState CLOSING sock) w
                            | _ => w
                            end
                        | None => w
                        end in
               set_ws None w
           | None => w
           end in
  set_sessionId JNull (set_isConnected false w).

Definition isSocketConnected (w : World) : bool :=
  isConnected (this w) &&
  match ws (this w) with
  | Some s => match sockets w !! s with
              | Some sock => is_open (readyState sock)
              | None => false
              end
  | None => false
  end.

Definition getSessionId (w : World) : JSValue := sessionId (this w).

(** *** The event loop *)

Inductive Event : Type :=
  | Connect (businessId userId : Z)
  | StartRecording (hasMediaDevices : bool)
  | StopRecording
  | ClearAudioQueue
  | Disconnect
  | WsOpen (s : nat)
  | WsMessage (s : nat) (f : Frame)
  | WsError (s : nat)
  | WsClose (s : nat)
  | Elapse (ms : Z)
  | TimerFire (id : nat)
  | UserMedia (result : option JSError) (typeSupported : bool)
  | DataAvailable (recorder : nat) (data : ArrayBuffer)
  | BlobRead (k : nat)
  | DecodeDone (loop : nat) (ok : bool)
  | SourceEnded (loop : nat).

Definition fireTimer (t : Timer) (w : World) : World :=
  match action t with
  | TurnEndTimeout => turnEndTimeout w
  | ReconnectTimeout b u => connect b u ByReconnect w
  | CallerTimeout f => set_ui (f (ui w)) w
  end.

(** One task of the event loop.  The browser delivers [open] only to a
    connecting socket, [message] only to an open one, [error] and [close]
    only before the socket is closed, and a timeout only once and not
    before it is due; an event it cannot deliver leaves the world as it is. *)
Definition step (e : Event) (w : World) : World :=
  match e with
  | Connect b u => connect b u ByCaller w
  | StartRecording has => startRecording has w
  | StopRecording => stopRecording w
  | ClearAudioQueue => clearAudioQueue w
  | Disconnect => disconnect w
  | WsOpen s =>
      match sockets w !! s with
      | Some sock =>
          match readyState sock with
          | CONNECTING =>
              ws_onopen s sock (set_socket s (with_readyState OPEN sock) w)
          | _ => w
          end
      | None => w
      end
  | WsMessage s f =>
      match sockets w !! s with
      | Some sock => if is_open (readyState sock) then fst (ws_onmessage f w) else w
      | None => w
      end
  | WsError s =>
      match sockets w !! s with
      | Some sock =>
          if is_closed (readyState sock) then w
          else ws_onerror s sock (set_socket s (with_readyState CLOSING sock) w)
      | None => w
      end
  | WsClose s =>
      match sockets w !! s with
      | Some sock =>
          if is_closed (readyState sock) then w
          else ws_onclose sock (set_socket s (with_readyState CLOSED sock) w)
      | None => w
      end
  | Elapse ms => if (0 <=? ms)%Z then set_now (now w + ms) w else w
  | TimerFire id =>
      match List.find (fun t => Nat.eqb (timer_id t) id) (timers w) with
      | Some t => if (due t <=? now w)%Z then fireTimer t (clearTimeout id w) else w
      | None => w
      end
  | UserMedia result typeSupported => startRecordingResumed result typeSupported w
  | DataAvailable r data =>
      match recorders w !! r with
      | Some _ => ondataavailable data w
      | None => w
      end
  | BlobRead k =>
      match blobReads w !! k with
      | Some buffer => onArrayBuffer buffer (set_blobReads (delete k (blobReads w)) w)
      | None => w
      end
  | DecodeDone i ok => resumeDecode i ok w
  | SourceEnded i => resumeEnded i w
  end.

Definition run (es : list Event) (w : World) : World :=
  fold_left (fun acc e => step e acc) es w.

(** [new VoiceWebSocketClient(config)] in a browser that has done nothing
    yet, owned by a caller in state [u]. *)
Definition initial (u : U) : World :=
  {| this := {| ws := None; mediaRecorder := None; audioContext := None;
                audioQueue := []; isPlaying := false; reconnectAttempts := 0;
                sessionId := JNull; isConnected := false; turnEndTimer := None |};
     sockets := []; timers := []; nextTimer := 1; now := 0; recorders := [];
     micRequests := 0; blobReads := []; loops := []; contexts := 0; ui := u;
     calls := []; console := []; playlog := [] |}.

(** *** Playback, for the properties *)

Fixpoint buffer_eqb (a b : ArrayBuffer) : bool :=
  match a, b with
  | [], [] => true
  | x :: a', y :: b' => Byte.eqb x y && buffer_eqb a' b'
  | _, _ => false
  end.

(** The output device, as a monitor of the play log: nothing sounds, one
    source sounds, or a source was started while another was sounding (or
    an [ended] arrived that matches no sounding source). *)
Inductive Device : Type :=
  | quiet
  | sounding (loop : nat) (audioData : ArrayBuffer)
  | overlapped.

Definition device_step (st : Device) (e : PlayEvent) : Device :=
  match st, e with
  | quiet, PlayStart i d => sounding i d
  | sounding i d, PlayEnd j d' =>
      if Nat.eqb i j && buffer_eqb d d' then quiet else overlapped
  | _, _ => overlapped
  end.

Definition device (log : list PlayEvent) : Device :=
  fold_left device_step log quiet.

(** The chunks whose playback was started, in the order of the starts. *)
Definition started (log : list PlayEvent) : list ArrayBuffer :=
  flat_map (fun e => match e with PlayStart _ d => [d] | PlayEnd _ _ => [] end) log.

Definition is_active (l : Loop) : bool :=
  match l with Finished => false | _ => true end.

(** The [playAudioQueue] activations that have not returned. *)
Definition active_loops (w : World) : nat :=
  length (List.filter is_active (loops w)).

Definition decoding (ls : list Loop) : list ArrayBuffer :=
  flat_map (fun l => match l with AwaitDecode d _ => [d] | _ => [] end) ls.

(** The chunks the client holds or has played, oldest first: those whose
    playback was started, the one being decoded, those in the queue. *)
Definition accepted (w : World) : list ArrayBuffer :=
  (started (playlog w) ++ decoding (loops w) ++ audioQueue (this w))%list.

(** The chunk that event [e] makes arrive in world [w], if it does. *)
Definition arrival (e : Event) (w : World) : list ArrayBuffer :=
  match e with
  | WsMessage s (BinaryFrame d) =>
      match sockets w !! s with
      | Some sock => if is_open (readyState sock) then [d] else []
      | None => []
      end
  | _ => []
  end.

(** The chunks that arrive along a run, in order. *)
Fixpoint arrivals (es : list Event) (w : World) : list ArrayBuffer :=
  match es with
  | [] => []
  | e :: es' => (arrival e w ++ arrivals es' (step e w))%list
  end.

(** Events other than [clearAudioQueue()] and [disconnect()]. *)
Definition undisturbed (e : Event) : bool :=
  match e with ClearAudioQueue | Disconnect => false | _ => true end.

(** Events other than a failed decode. *)
Definition decodes (e : Event) : bool :=
  match e with DecodeDone _ false => false | _ => true end.

(** A successful decode, or the end of a source. *)
Definition completion (e : Event) : bool :=
  match e with DecodeDone _ true | SourceEnded _ => true | _ => false end.

(** The decoder and the device serve activation [i] for [k] chunks. *)
Fixpoint serve (i k : nat) : list Event :=
  match k with
  | O => []
  | S k' => DecodeDone i true :: SourceEnded i :: serve i k'
  end.

(** *** Timers and retries, for the properties *)

Definition is_turn_end_timer (t : Timer) : bool :=
  match action t with TurnEndTimeout => true | _ => false end.

Definition is_reconnect_timer (t : Timer) : bool :=
  match action t with ReconnectTimeout _ _ => true | _ => false end.

(** The retry that is scheduled and has not been taken yet. *)
Definition pendingReconnect (w : World) : option Timer :=
  List.find is_reconnect_timer (timers w).

(** Timer identifiers are distinct and below the next one, and a pending
    silence timeout is the one [this.turnEndTimer] names. *)
Definition timers_wf (w : World) : Prop :=
  NoDup (map timer_id (timers w))
  /\ Forall (fun t => timer_id t < nextTimer w) (timers w)
  /\ Forall (fun t => is_turn_end_timer t = true ->
                      turnEndTimer (this w) = Some (timer_id t)) (timers w).

Definition is_turn_end (p : Payload) : bool :=
  match p with
  | TextData text => String.eqb text (JSON_stringify (command "turn_end"))
  | BinaryData _ => false
  end.

(** How many [turn_end] commands have gone out, on all sockets. *)
Definition turn_ends (w : World) : nat :=
  length (List.filter is_turn_end (concat (map sent (sockets w)))).

(** Events in which only time passes. *)
Definition silent (e : Event) : bool :=
  match e with Elapse _ | TimerFire _ => true | _ => false end.

(** The sockets opened by the reconnect timeout. *)
Definition reconnects (w : World) : nat :=
  length (List.filter (fun sock => match origin sock with
                                   | ByReconnect => true
                                   | ByCaller => false
                                   end) (sockets w)).

(** The transport closes the client's socket; the retry that the close
    handler scheduled, if it did, is taken when it is due. *)
Definition close_then_retry (w : World) : World :=
  match ws (this w) with
  | Some s =>
      let w1 := step (WsClose s) w in
      match pendingReconnect w1 with
      | Some t => run [Elapse reconnectDelay; TimerFire (timer_id t)] w1
      | None => w1
      end
  | None => w
  end.

(** What playback reads and writes. *)
Definition audio (w : World) :=
  (audioQueue (this w), isPlaying (this w), audioContext (this w), loops w, playlog w).

Definition all_finished (ls : list Loop) : Prop := Forall (fun l => l = Finished) ls.

(** The playback loop is idle with an empty queue and a quiet device, or
    one activation is busy: it awaits the decoder and the device is quiet,
    or it awaits the end of the source that is sounding. *)
Inductive playback_inv (w : World) : Prop :=
  | inv_idle :
      isPlaying (this w) = false -> audioQueue (this w) = [] ->
      all_finished (loops w) -> device (playlog w) = quiet -> playback_inv w
  | inv_decoding (l1 l2 : list Loop) (d n : ArrayBuffer) :
      isPlaying (this w) = true -> audioContext (this w) <> None ->
      loops w = (l1 ++ AwaitDecode d n :: l2)%list ->
      all_finished l1 -> all_finished l2 ->
      device (playlog w) = quiet -> playback_inv w
  | inv_playing (l1 l2 : list Loop) (d n : ArrayBuffer) :
      isPlaying (this w) = true -> audioContext (this w) <> None ->
      loops w = (l1 ++ AwaitEnded d n :: l2)%list ->
      all_finished l1 -> all_finished l2 ->
      device (playlog w) = sounding (length l1) d -> playback_inv w.

(** One activation is busy: it occupies slot [length l1] with [cur]. *)
Definition busy_shape (w : World) (l1 l2 : list Loop) (cur : Loop) : Prop :=
  isPlaying (this w) = true /\ audioContext (this w) <> None
  /\ loops w = (l1 ++ cur :: l2)%list /\ all_finished l1 /\ all_finished l2.

(** A callback that returns normally, whatever the caller state. *)
Definition never_throws (h : option (U -> CbResult)) : Prop :=
  forall f, h = Some f -> forall u, cb_threw (f u) = None.

(** [n] closures in a row, none of the retries reaching [open]. *)
Fixpoint closures (n : nat) (w : World) : World :=
  match n with
  | O => w
  | S n' => closures n' (close_then_retry w)
  end.

(** The client's socket exists and is not closed yet. *)
Definition live (w : World) : Prop :=
  exists s sock, ws (this w) = Some s /\ sockets w !! s = Some sock
                 /\ is_closed (readyState sock) = false.

End WithCaller.

(** *** Vocabulary of the properties *)

(** The case labels of the [switch] in [handleMessage]. *)
Definition handled_types : list string :=
  [ "session_initialized"; "transcription"; "processing"; "agent_speaking";
    "agent_finished"; "interrupted"; "error"; "timeout"; "heartbeat";
    "session_complete" ].

Definition recognized (type : JSValue) : bool :=
  existsb (is_str type) handled_types.

(** The payload field that the guards of four of the cases test. *)
Definition required_field (type : JSValue) : option string :=
  if is_str type "transcription" then Some "text"
  else if is_str type "agent_speaking" then Some "text"
  else if is_str type "processing" then Some "message"
  else if is_str type "error" then Some "message"
  else None.

(** [s] between double quotes, as it is. *)
Definition q (s : string) : string := String dquote (s ++ String dquote EmptyString).

(** Some recorder is recording. *)
Definition capturing {U : Type} (w : @World U) : bool :=
  existsb (fun r => match r with recording => true | inactive => false end) (recorders w).

(** The frame of the scenario of the session handshake. *)
Definition session_initialized_abc : string :=
  "{" ++ q "type" ++ ":" ++ q "session_initialized" ++ ","
      ++ q "session_id" ++ ":" ++ q "abc" ++ "}".

Arguments CbResult : clear implicits.
Arguments VoiceClientConfig : clear implicits.
Arguments World : clear implicits.
Arguments Timer : clear implicits.
Arguments TimerAction : clear implicits.

End Client.

(** ** The component that owns the client (AIVoiceInterface) *)

Module AIVoiceInterface.
Import JS Client.

Inductive Status : Type := idle | connecting | listening | processing | speaking | error.

(** The [useState] cells and the two refs. *)
Record State : Type := {
  status : Status;
  transcription : JSValue;
  fullTranscript : JSValue;
  agentResponse : JSValue;
  errorMessage : JSValue;
  isConnected : bool;
  voiceClientRef : bool;
  isActiveRef : bool
}.

Definition setStatus (v : Status) (u : State) : State :=
  {| status := v; transcription := transcription u; fullTranscript := fullTranscript u;
     agentResponse := agentResponse u; errorMessage := errorMessage u;
     isConnected := isConnected u; voiceClientRef := voiceClientRef u;
     isActiveRef := isActiveRef u |}.

Definition setTranscription (v : JSValue) (u : State) : State :=
  {| status := status u; transcription := v; fullTranscript := fullTranscript u;
     agentResponse := agentResponse u; errorMessage := errorMessage u;
     isConnected := isConnected u; voiceClientRef := voiceClientRef u;
     isActiveRef := isActiveRef u |}.

Definition setFullTranscript (v : JSValue) (u : State) : State :=
  {| status := status u; transcription := transcription u; fullTranscript := v;
     agentResponse := agentResponse u; errorMessage := errorMessage u;
     isConnected := isConnected u; voiceClientRef := voiceClientRef u;
     isActiveRef := isActiveRef u |}.

Definition setAgentResponse (v : JSValue) (u : State) : State :=
  {| status := status u; transcription := transcription u; fullTranscript := fullTranscript u;
     agentResponse := v; errorMessage := errorMessage u;
     isConnected := isConnected u; voiceClientRef := voiceClientRef u;
     isActiveRef := isActiveRef u |}.

Definition setErrorMessage (v : JSValue) (u : State) : State :=
  {| status := status u; transcription := transcription u; fullTranscript := fullTranscript u;
     agentResponse := agentResponse u; errorMessage := v;
     isConnected := isConnected u; voiceClientRef := voiceClientRef u;
     isActiveRef := isActiveRef u |}.

Definition setIsConnected (v : bool) (u : State) : State :=
  {| status := status u; transcription := transcription u; fullTranscript := fullTranscript u;
     agentResponse := agentResponse u; errorMessage := errorMessage u;
     isConnected := v; voiceClientRef := voiceClientRef u;
     isActiveRef := isActiveRef u |}.

Definition setVoiceClientRef (v : bool) (u : State) : State :=
  {| status := status u; transcription := transcription u; fullTranscript := fullTranscript u;
     agentResponse := agentResponse u; errorMessage := errorMessage u;
     isConnected := isConnected u; voiceClientRef := v;
     isActiveRef := isActiveRef u |}.

Definition setIsActiveRef (v : bool) (u : State) : State :=
  {| status := status u; transcription := transcription u; fullTranscript := fullTranscript u;
     agentResponse := agentResponse u; errorMessage := errorMessage u;
     isConnected := isConnected u; voiceClientRef := voiceClientRef u;
     isActiveRef := v |}.

Definition mounted : State :=
  {| status := idle; transcription := JStr EmptyString; fullTranscript := JStr EmptyString;
     agentResponse := JStr EmptyString; errorMessage := JStr EmptyString;
     isConnected := false; voiceClientRef := false; isActiveRef := false |}.

Definition returns (u : State) : CbResult State :=
  {| cb_ui := u; cb_threw := None; cb_timers := [] |}.

(** The object literal handed to [new VoiceWebSocketClient].  The component
    destructures only [isListening] from its props, so the identifiers
    [onTranscription] and [onClearCaption] read inside two of the callbacks
    are unbound: evaluating them throws a ReferenceError after the state
    updates before them have been made. *)
Definition config : VoiceClientConfig State :=
  {| onSessionInitialized := Some (fun _ u =>
       returns (setErrorMessage (JStr EmptyString) (setStatus idle (setIsConnected true u))));
     onTranscription := Some (fun text _ u =>
       {| cb_ui := setTranscription text u;
          cb_threw := Some (ReferenceError "onTranscription");
          cb_timers := [] |});
     onProcessing := Some (fun message u =>
       returns (setAgentResponse message (setStatus processing u)));
     onAgentSpeaking := Some (fun text u =>
       {| cb_ui := setTranscription (JStr EmptyString)
                     (setAgentResponse text (setStatus speaking u));
          cb_threw := Some (ReferenceError "onClearCaption");
          cb_timers := [] |});
     onAgentFinished := Some (fun _ u =>
       {| cb_ui := setStatus idle u;
          cb_threw := None;
          cb_timers := [(3000%Z, setAgentResponse (JStr EmptyString))] |});
     onAudioReceived := None;
     onInterrupted := Some (fun _ _ u => returns u);
     onError := Some (fun e u => returns (setErrorMessage e (setStatus error u)));
     onDisconnected := Some (fun u => returns (setStatus idle (setIsConnected false u)));
     onTimeout := Some (fun u =>
       returns (setErrorMessage (JStr "Session expired due to inactivity")
                                (setStatus error u))) |}.

(** The [catch] around [await client.connect(2, 1)]. *)
Definition connectRejected (u : State) : State :=
  setErrorMessage (JStr "Failed to connect to voice service") (setStatus error u).

(** [error.message || String(error)] *)
Definition error_text (e : JSError) : string :=
  match e with
  | SyntaxError => "SyntaxError"
  | TypeError => "TypeError"
  | ReferenceError name => name ++ " is not defined"
  | Error message => if String.eqb message EmptyString then "Error" else message
  | DOMException name message =>
      if String.eqb message EmptyString then name else message
  end.

Definition includes (s sub : string) : bool :=
  match String.index 0 sub s with
  | Some _ => true
  | None => false
  end.

(** The [.catch] on [client.startRecording()]. *)
Definition recordingRejected (e : JSError) (u : State) : State :=
  let errorMsg := error_text e in
  let u := setStatus error u in
  let u :=
    if includes errorMsg "localhost" || includes errorMsg "HTTPS" then
      setErrorMessage
        (JStr "Microphone requires HTTPS or localhost access. Please use http://localhost:5173") u
    else if includes errorMsg "Permission denied" || includes errorMsg "NotAllowedError" then
      setErrorMessage (JStr "Microphone access denied. Please allow microphone permissions.") u
    else
      setErrorMessage (JStr "Failed to access microphone. Please check permissions.") u in
  setIsActiveRef false u.

Section Effects.

Variable JSON_parse : string -> option JSValue.

(** The event loop of a page showing the component. *)
Definition step : Event -> World State -> World State :=
  Client.step JSON_parse config connectRejected recordingRejected.

Definition run : list Event -> World State -> World State :=
  Client.run JSON_parse config connectRejected recordingRejected.

(** The mount effect. *)
Definition initializeVoiceClient (w : World State) : World State :=
  if voiceClientRef (ui w) then w
  else
    let w := set_ui (setVoiceClientRef true (setStatus connecting (ui w))) w in
    connect 2 1 ByCaller w.

(** The effect on [isListening, isConnected, status]. *)
Definition listeningEffect (isListening hasMediaDevices : bool) (w : World State)
    : World State :=
  let u := ui w in
  if negb (voiceClientRef u) || negb (isConnected u) then w
  else if isListening && negb (isActiveRef u) then
    let u := setErrorMessage (JStr EmptyString)
               (setFullTranscript (JStr EmptyString)
                  (setTranscription (JStr EmptyString)
                     (setStatus listening (setIsActiveRef true u)))) in
    startRecording config recordingRejected hasMediaDevices (set_ui u w)
  else if negb isListening && isActiveRef u then
    let w := stopRecording w in
    let u' := setIsActiveRef false (ui w) in
    set_ui (match status u with listening => setStatus idle u' | _ => u' end) w
  else w.

(** The cleanup of the mount effect. *)
Definition cleanup (w : World State) : World State :=
  if voiceClientRef (ui w)
  then set_ui (setVoiceClientRef false (ui w)) (disconnect w)
  else w.

End Effects.

End AIVoiceInterface.

(** ** Concrete runs of a page showing the component *)

Module Scenarios.
Import JS Client AIVoiceInterface.

Definition run : list Event -> World State -> World State :=
  AIVoiceInterface.run json_parse.

Definition frame (fields : list (string * JSValue)) : Frame :=
  TextFrame (JSON_stringify (JObj fields)).

(** Mounted, connected, and the backend has announced session ["abc"]. *)
Definition established : World State :=
  run [WsOpen 0; WsMessage 0 (TextFrame session_initialized_abc)]
      (initializeVoiceClient (initial mounted)).

(** The user has tapped to speak and the microphone was granted. *)
Definition capturing_world : World State :=
  run [UserMedia None true] (listeningEffect true true established).

Definition agent_speaking_hello : Frame :=
  frame [("type", JStr "agent_speaking"); ("text", JStr "hello")].

Definition chunkA : ArrayBuffer := [Byte.x41].
Definition chunkB : ArrayBuffer := [Byte.x42].

(** The recorder has delivered a chunk whose bytes are being read. *)
Definition chunk_pending : World State :=
  run [DataAvailable 0 chunkA] capturing_world.

(** Socket 0 of the runs above: open, and the handshake has gone out. *)
Definition handshaken : WebSocket :=
  {| readyState := OPEN;
     sent := [TextData ("{" ++ q "business_id" ++ ":2," ++ q "user_id" ++ ":1}")];
     businessId := 2; userId := 1; origin := ByCaller; promise := Resolved |}.


(** Two chunks arrive back to back and are decoded and played. *)
Definition two_chunks : list Event :=
  [ Connect 2 1; WsOpen 0;
    WsMessage 0 (BinaryFrame chunkA); WsMessage 0 (BinaryFrame chunkB);
    DecodeDone 0 true; SourceEnded 0; DecodeDone 0 true; SourceEnded 0 ].

(** Chunk A is sounding when [clearAudioQueue()] is called. *)
Definition cleared_mid_playback : World State :=
  run [WsMessage 0 (BinaryFrame chunkA); DecodeDone 0 true; ClearAudioQueue] established.

(** Then chunk B arrives and is decoded. *)
Definition enqueued_after_clear : World State :=
  run [WsMessage 0 (BinaryFrame chunkB); DecodeDone 1 true] cleared_mid_playback.

End Scenarios.

(** * Properties *)

Import JS Client.

(** The cases of the [switch] on a tag [type] that is not known, each with
    its callback registered or not and its guard passed or not. *)
Ltac switch_cases type :=
  repeat match goal with
         | |- context [if is_str type ?lit then _ else _] => destruct (is_str type lit)
         end;
  repeat match goal with
         | |- context [match ?o with Some _ => _ | None => _ end] => destruct o
         | |- context [if truthy ?v then _ else _] => destruct (truthy v)
         end.

(** ** Inbound text frames *)

Section TextFrames.

Context {U : Type}.
Variable JSON_parse : string -> option JSValue.
Variable config : VoiceClientConfig U.

Lemma recognized_false (type : JSValue) :
  recognized type = false ->
  Forall (fun lit => is_str type lit = false) handled_types.
Proof.
  unfold recognized. intros H. apply Forall_forall. intros lit Hin.
  destruct (is_str type lit) eqn:E; [|reflexivity].
  assert (existsb (is_str type) handled_types = true) as Hex.
  { apply existsb_exists. exists lit. split; [ | exact E ].
    apply list_elem_of_In. exact Hin. }
  congruence.
Qed.

Lemma handleMessage_unknown (message type : JSValue) (w : World U) :
  get_prop message "type" = Some type ->
  recognized type = false ->
  handleMessage config message w = (log_console (console_log "Received message:") w, None).
Proof.
  intros Ht Hr. apply recognized_false in Hr.
  unfold handled_types in Hr.
  repeat match goal with
         | H : Forall _ (_ :: _) |- _ => apply Forall_cons in H; destruct H as [? H]
         end.
  unfold handleMessage. rewrite Ht.
  repeat match goal with
         | H : is_str type _ = false |- _ => rewrite H; clear H
         end.
  reflexivity.
Qed.

Lemma is_str_true (v : JSValue) (lit : string) :
  is_str v lit = true -> v = JStr lit.
Proof.
  destruct v; simpl; try discriminate.
  intros H. apply String.eqb_eq in H. congruence.
Qed.

(** [log_console] touches the console only. *)
Lemma log_console_keeps (c : Console) (w : World U) :
  this (log_console c w) = this w /\ sockets (log_console c w) = sockets w /\
  timers (log_console c w) = timers w /\ recorders (log_console c w) = recorders w /\
  loops (log_console c w) = loops w /\ calls (log_console c w) = calls w /\
  ui (log_console c w) = ui w /\ playlog (log_console c w) = playlog w /\
  blobReads (log_console c w) = blobReads w.
Proof. repeat split. Qed.

(** C7: a text frame that fails to parse is logged and dropped, and so is
    one that parses to a value without a recognized [type] (or to [null],
    whose [type] cannot be read): the only trace is one console line; no
    callback runs, no field of the client and nothing else in the world
    changes, and nothing is thrown out of the handler.  ([log_console]
    appends to [console] and keeps every other component.) *)
Theorem unparsable_and_unknown_frames_are_dropped (data : string) (w : World U) :
  (JSON_parse data = None ->
   ws_onmessage JSON_parse config (TextFrame data) w
   = (log_console (console_error "Error parsing message:") w, None))
  /\
  (forall message type,
     JSON_parse data = Some message ->
     get_prop message "type" = Some type ->
     recognized type = false ->
     ws_onmessage JSON_parse config (TextFrame data) w
     = (log_console (console_log "Received message:") w, None))
  /\
  (forall message,
     JSON_parse data = Some message ->
     get_prop message "type" = None ->
     ws_onmessage JSON_parse config (TextFrame data) w
     = (log_console (console_error "Error parsing message:") w, None)).
Proof.
  split; [| split].
  - intros Hp. unfold ws_onmessage, tryHandle. rewrite Hp. reflexivity.
  - intros message type Hp Ht Hr. unfold ws_onmessage, tryHandle. rewrite Hp.
    rewrite (handleMessage_unknown message type w Ht Hr). reflexivity.
  - intros message Hp Ht. unfold ws_onmessage, tryHandle, handleMessage.
    rewrite Hp, Ht. reflexivity.
Qed.

Lemma handleMessage_no_payload (message type : JSValue) (k : string) (w : World U) :
  get_prop message "type" = Some type ->
  required_field type = Some k ->
  truthy (default JUndefined (get_prop message k)) = false ->
  handleMessage config message w = (log_console (console_log "Received message:") w, None).
Proof.
  intros Ht Hk Hv. unfold required_field in Hk.
  destruct (is_str type "transcription") eqn:E1;
    [ apply is_str_true in E1
    | destruct (is_str type "agent_speaking") eqn:E2;
      [ apply is_str_true in E2
      | destruct (is_str type "processing") eqn:E3;
        [ apply is_str_true in E3
        | destruct (is_str type "error") eqn:E4;
          [ apply is_str_true in E4 | discriminate ] ] ] ];
    subst type; injection Hk as <-;
    unfold handleMessage; rewrite Ht; cbn; rewrite Hv.
  - destruct (onTranscription config); reflexivity.
  - destruct (onAgentSpeaking config); reflexivity.
  - destruct (onProcessing config); reflexivity.
  - destruct (onError config); reflexivity.
Qed.

(** C10: an event tagged [transcription], [processing], [agent_speaking]
    or [error] whose required field ([text], [text], [message], [message])
    is absent or the empty string is dropped: no callback runs and nothing
    but the console changes, whatever callbacks are registered. *)
Theorem events_without_payload_are_dropped
    (data : string) (message type : JSValue) (k : string) (w : World U) :
  JSON_parse data = Some message ->
  get_prop message "type" = Some type ->
  required_field type = Some k ->
  get_prop message k = Some JUndefined \/ get_prop message k = Some (JStr EmptyString) ->
  ws_onmessage JSON_parse config (TextFrame data) w
  = (log_console (console_log "Received message:") w, None).
Proof.
  intros Hp Ht Hk Hv. unfold ws_onmessage, tryHandle. rewrite Hp.
  rewrite (handleMessage_no_payload message type k w Ht Hk).
  - reflexivity.
  - destruct Hv as [-> | ->]; reflexivity.
Qed.

End TextFrames.

(** ** The session: handshake, heartbeat, session id *)

Section Session.

Context {U : Type}.
Variable JSON_parse : string -> option JSValue.
Variable config : VoiceClientConfig U.
Variable connectRejected : U -> U.
Variable recordingRejected : JSError -> U -> U.

#[local] Abbreviation step := (Client.step JSON_parse config connectRejected recordingRejected).
#[local] Abbreviation run := (Client.run JSON_parse config connectRejected recordingRejected).

(** A callback reaches the caller state, the call trace and the timers,
    and nothing else. *)
Lemma setTimeout_fold_keeps (l : list (Z * (U -> U))) (w : World U) :
  let w' := fold_left (fun acc df => snd (setTimeout (CallerTimeout (snd df)) (fst df) acc)) l w in
  this w' = this w /\ sockets w' = sockets w /\ loops w' = loops w /\
  playlog w' = playlog w /\ recorders w' = recorders w /\ calls w' = calls w /\
  ui w' = ui w /\ console w' = console w /\ now w' = now w /\
  blobReads w' = blobReads w /\ micRequests w' = micRequests w /\
  contexts w' = contexts w.
Proof.
  revert w. induction l as [|df l IH]; intros w; cbn.
  - repeat split.
  - specialize (IH (snd (setTimeout (CallerTimeout (snd df)) (fst df) w))).
    cbn in IH. exact IH.
Qed.

Lemma invoke_keeps (c : Call) (h : U -> CbResult U) (w : World U) :
  let w' := fst (invoke c h w) in
  this w' = this w /\ sockets w' = sockets w /\ loops w' = loops w /\
  playlog w' = playlog w /\ recorders w' = recorders w /\
  console w' = console w /\ now w' = now w /\ blobReads w' = blobReads w /\
  micRequests w' = micRequests w /\ contexts w' = contexts w /\
  calls w' = (calls w ++ [c])%list /\ ui w' = cb_ui (h (ui w)).
Proof.
  unfold invoke. cbn.
  pose proof (setTimeout_fold_keeps (cb_timers (h (ui w)))
                (set_ui (cb_ui (h (ui w))) (log_call c w))) as H.
  cbn in H. destruct H as (H1 & H2 & H3 & H4 & H5 & H6 & H7 & H8 & H9 & H10 & H11 & H12).
  repeat split; assumption.
Qed.

Lemma invoke_this (c : Call) (h : U -> CbResult U) (w : World U) :
  this (fst (invoke c h w)) = this w.
Proof. apply invoke_keeps. Qed.

Lemma socket_send_this (p : Payload) (w : World U) : this (socket_send p w) = this w.
Proof.
  unfold socket_send. destruct (ws (this w)) as [s|]; [|reflexivity].
  destruct (sockets w !! s) as [sock|]; [|reflexivity].
  destruct (is_open (readyState sock)); reflexivity.
Qed.

(** What the [session_initialized] case does. *)
Lemma handleMessage_session_initialized (message : JSValue) (w : World U) :
  get_prop message "type" = Some (JStr "session_initialized") ->
  let v := js_or (default JUndefined (get_prop message "session_id")) JNull in
  let w' := fst (handleMessage config message w) in
  sessionId (this w') = v /\
  match onSessionInitialized config with
  | Some h =>
      if truthy v
      then calls w' = (calls w ++ [CallSessionInitialized v])%list /\ ui w' = cb_ui (h v (ui w))
      else calls w' = calls w /\ ui w' = ui w
  | None => calls w' = calls w /\ ui w' = ui w
  end.
Proof.
  intros Ht. cbv zeta. unfold handleMessage. rewrite Ht.
  change (is_str (JStr "session_initialized") "session_initialized") with true.
  cbv iota.
  set (v := js_or (default JUndefined (get_prop message "session_id")) JNull).
  change (sessionId (this (set_sessionId v (log_console (console_log "Received message:") w))))
    with v.
  destruct (onSessionInitialized config) as [h|]; [|split; [reflexivity | split; reflexivity]].
  destruct (truthy v); [|split; [reflexivity | split; reflexivity]].
  match goal with
  | |- context [invoke ?c ?f ?w0] => pose proof (invoke_keeps c f w0) as K
  end.
  cbv zeta in K. destruct K as (Kt & _ & _ & _ & _ & _ & _ & _ & _ & _ & Kc & Ku).
  split; [rewrite Kt; reflexivity | split; assumption].
Qed.

(** A text frame leaves the world its handler leaves, up to the console. *)
Lemma ws_onmessage_text (data : string) (message : JSValue) (w : World U) :
  JSON_parse data = Some message ->
  let a := fst (ws_onmessage JSON_parse config (TextFrame data) w) in
  let b := fst (handleMessage config message w) in
  this a = this b /\ calls a = calls b /\ ui a = ui b /\ sockets a = sockets b /\
  recorders a = recorders b /\ timers a = timers b /\ loops a = loops b /\
  playlog a = playlog b.
Proof.
  intros Hp. unfold ws_onmessage, tryHandle. rewrite Hp.
  destruct (handleMessage config message w) as [w' [e|]]; repeat split.
Qed.


(** C6: on a fresh client, after [connect(2, 1)] and the opening of the
    channel, exactly one message has been sent, the text
    [{"business_id":2,"user_id":1}], an object without a [command]
    property; when the frame
    [{"type":"session_initialized","session_id":"abc"}] then arrives,
    [getSessionId()] is ["abc"] and a registered [onSessionInitialized] has
    been called, once, with ["abc"]. *)
Theorem handshake_then_session_id (u0 : U) :
  JSON_parse session_initialized_abc
  = Some (JObj [("type", JStr "session_initialized"); ("session_id", JStr "abc")]) ->
  let w1 := run [Connect 2 1; WsOpen 0] (initial u0) in
  let w2 := step (WsMessage 0 (TextFrame session_initialized_abc)) w1 in
  sent <$> (sockets w1 !! 0)
  = Some [TextData ("{" ++ q "business_id" ++ ":2," ++ q "user_id" ++ ":1}")]
  /\ JSON_stringify (handshake 2 1) = "{" ++ q "business_id" ++ ":2," ++ q "user_id" ++ ":1}"
  /\ get_prop (handshake 2 1) "command" = Some JUndefined
  /\ getSessionId w2 = JStr "abc"
  /\ match onSessionInitialized config with
     | Some h => calls w2 = [CallSessionInitialized (JStr "abc")]
                 /\ ui w2 = cb_ui (h (JStr "abc") u0)
     | None => calls w2 = []
     end.
Proof.
  intros Hp. cbv zeta.
  split; [reflexivity|]. split; [reflexivity|]. split; [reflexivity|].
  set (w1 := run [Connect 2 1; WsOpen 0] (initial u0)).
  assert (step (WsMessage 0 (TextFrame session_initialized_abc)) w1
          = fst (ws_onmessage JSON_parse config (TextFrame session_initialized_abc) w1)) as ->
    by reflexivity.
  destruct (ws_onmessage_text session_initialized_abc _ w1 Hp) as (Et & Ec & Eu & _).
  destruct (handleMessage_session_initialized
              (JObj [("type", JStr "session_initialized"); ("session_id", JStr "abc")]) w1
              eq_refl) as (Hs & Hc).
  change (js_or (default JUndefined
                   (get_prop (JObj [("type", JStr "session_initialized");
                                    ("session_id", JStr "abc")]) "session_id")) JNull)
    with (JStr "abc") in Hs, Hc.
  split.
  - unfold getSessionId. rewrite Et. exact Hs.
  - rewrite Ec, Eu. destruct (onSessionInitialized config) as [h|].
    + change (truthy (JStr "abc")) with true in Hc. cbv iota in Hc.
      destruct Hc as [-> ->]. split; reflexivity.
    + destruct Hc as [-> _]. reflexivity.
Qed.

Lemma handleMessage_this (message : JSValue) (w : World U) :
  get_prop message "type" <> Some (JStr "session_initialized") ->
  this (fst (handleMessage config message w)) = this w.
Proof.
  intros Hne. unfold handleMessage.
  destruct (get_prop message "type") as [type|]; [|reflexivity].
  destruct (is_str type "session_initialized") eqn:E0.
  { apply is_str_true in E0. congruence. }
  switch_cases type;
    try rewrite invoke_this; try reflexivity.
  unfold send. cbn [fst]. rewrite socket_send_this. reflexivity.
Qed.

Lemma afterPlayAudioQueue_this (data : ArrayBuffer) (w : World U) :
  this (afterPlayAudioQueue config data w) = this w.
Proof.
  unfold afterPlayAudioQueue. destruct (onAudioReceived config) as [h|]; [|reflexivity].
  pose proof (invoke_this (CallAudioReceived data) (h data) w) as K.
  destruct (invoke (CallAudioReceived data) (h data) w) as [w' [e|]]; exact K.
Qed.

Lemma whileQueue_sessionId (i : nat) (notify : ArrayBuffer) (queue : list ArrayBuffer)
    (w : World U) :
  sessionId (this (whileQueue config i notify queue w)) = sessionId (this w).
Proof.
  revert w. induction queue as [|a queue IH]; intros w; cbn [whileQueue].
  - unfold finishLoop. rewrite afterPlayAudioQueue_this. reflexivity.
  - destruct (audioContext (this (set_audioQueue queue w))); [reflexivity|].
    rewrite IH. reflexivity.
Qed.

Lemma playAudioQueue_sessionId (notify : ArrayBuffer) (w : World U) :
  sessionId (this (playAudioQueue config notify w)) = sessionId (this w).
Proof.
  unfold playAudioQueue.
  destruct (isPlaying (this w) || Nat.eqb (length (audioQueue (this w))) 0).
  - rewrite afterPlayAudioQueue_this. reflexivity.
  - rewrite whileQueue_sessionId. destruct (audioContext (this (set_isPlaying true w))); reflexivity.
Qed.

(** C9, as the code has it: [sessionId] is written by the
    [session_initialized] case, on every such event (the event's
    [session_id], or [null] when that is missing or falsy), by no other
    inbound frame, and by [disconnect()], which clears it: after
    [disconnect()], [getSessionId()] is [null]. *)
Theorem session_id_assignment (w : World U) :
  (forall s sock data message,
     sockets w !! s = Some sock -> readyState sock = OPEN ->
     JSON_parse data = Some message ->
     get_prop message "type" = Some (JStr "session_initialized") ->
     getSessionId (step (WsMessage s (TextFrame data)) w)
     = js_or (default JUndefined (get_prop message "session_id")) JNull)
  /\
  (forall s f,
     match f with
     | BinaryFrame _ => True
     | TextFrame data =>
         forall message, JSON_parse data = Some message ->
                         get_prop message "type" <> Some (JStr "session_initialized")
     end ->
     getSessionId (step (WsMessage s f) w) = getSessionId w)
  /\
  getSessionId (step Disconnect w) = JNull.
Proof.
  split; [|split].
  - intros s sock data message Hs Hopen Hp Ht. cbn [Client.step]. rewrite Hs, Hopen.
    cbn [is_open]. unfold getSessionId.
    destruct (ws_onmessage_text data message w Hp) as (-> & _).
    apply handleMessage_session_initialized. exact Ht.
  - intros s f Hf. cbn [Client.step]. unfold getSessionId.
    destruct (sockets w !! s) as [sock|]; [|reflexivity].
    destruct (is_open (readyState sock)); [|reflexivity].
    destruct f as [data|data].
    + cbn [ws_onmessage fst]. rewrite playAudioQueue_sessionId. reflexivity.
    + destruct (JSON_parse data) as [message|] eqn:Hp.
      * destruct (ws_onmessage_text data message w Hp) as (-> & _).
        rewrite handleMessage_this; [reflexivity|]. apply Hf. reflexivity.
      * unfold ws_onmessage, tryHandle. rewrite Hp. reflexivity.
  - reflexivity.
Qed.

End Session.

(** ** Capture and the agent's speech *)

Section AgentSpeaking.

Import AIVoiceInterface.
Variable JSON_parse : string -> option JSValue.

(** C5, as the code has it: when an [agent_speaking] event with a
    non-empty text arrives, the component's status becomes [speaking] and
    the text is shown; neither the client nor the component stops the
    recorder, so a capture that was running keeps running, also after the
    component's effect has run again with [isListening] still true. *)
Theorem agent_speaking_shows_speaking_and_keeps_capture
    (data : string) (message text : JSValue) (s : nat) (sock : WebSocket)
    (w : World State) :
  JSON_parse data = Some message ->
  get_prop message "type" = Some (JStr "agent_speaking") ->
  get_prop message "text" = Some text ->
  truthy text = true ->
  sockets w !! s = Some sock ->
  readyState sock = OPEN ->
  let w' := AIVoiceInterface.step JSON_parse (WsMessage s (TextFrame data)) w in
  status (ui w') = speaking
  /\ agentResponse (ui w') = text
  /\ calls w' = (calls w ++ [CallAgentSpeaking text])%list
  /\ recorders w' = recorders w
  /\ mediaRecorder (this w') = mediaRecorder (this w)
  /\ capturing w' = capturing w
  /\ (isActiveRef (ui w) = true ->
      forall hasMediaDevices, listeningEffect true hasMediaDevices w' = w').
Proof.
  intros Hp Ht Hx Htr Hs Hopen. cbv zeta.
  unfold AIVoiceInterface.step. cbn [Client.step]. rewrite Hs, Hopen. cbn [is_open].
  unfold ws_onmessage, tryHandle. rewrite Hp.
  unfold handleMessage. rewrite Ht, Hx. cbn. rewrite Htr. cbn.
  repeat split.
  intros Hact has. unfold listeningEffect. cbn. rewrite Hact.
  destruct (voiceClientRef (ui w)), (isConnected (ui w)); reflexivity.
Qed.

End AgentSpeaking.


(** ** Timers: the silence timeout and the reconnect timeout *)

Section Timers.

Context {U : Type}.
Variable JSON_parse : string -> option JSValue.
Variable config : VoiceClientConfig U.
Variable connectRejected : U -> U.
Variable recordingRejected : JSError -> U -> U.

#[local] Abbreviation step := (Client.step JSON_parse config connectRejected recordingRejected).
#[local] Abbreviation run := (Client.run JSON_parse config connectRejected recordingRejected).

Lemma run_app (es1 es2 : list Event) (w : World U) :
  run (es1 ++ es2)%list w = run es2 (run es1 w).
Proof. unfold Client.run. apply fold_left_app. Qed.

Lemma run_cons (e : Event) (es : list Event) (w : World U) :
  run (e :: es) w = run es (step e w).
Proof. reflexivity. Qed.

(** *** Counting what was sent *)

Lemma count_sent_insert (f : Payload -> bool) (l : list WebSocket) (s : nat)
    (sock : WebSocket) (p : Payload) :
  l !! s = Some sock ->
  length (List.filter f (concat (map sent (<[s := with_sent (sent sock ++ [p])%list sock]> l))))
  = length (List.filter f (concat (map sent l))) + (if f p then 1 else 0).
Proof.
  revert s. induction l as [|a l IH]; intros s Hs; [discriminate|].
  destruct s as [|s].
  - injection Hs as ->.
    change (<[0 := with_sent (sent sock ++ [p])%list sock]> (sock :: l))
      with (with_sent (sent sock ++ [p])%list sock :: l).
    cbn [map concat with_sent sent].
    rewrite !List.filter_app, !length_app. cbn. destruct (f p); cbn; lia.
  - change (<[S s := with_sent (sent sock ++ [p])%list sock]> (a :: l))
      with (a :: <[s := with_sent (sent sock ++ [p])%list sock]> l).
    cbn [map concat].
    rewrite !List.filter_app, !length_app, (IH s Hs). lia.
Qed.

Lemma count_sent_snoc (f : Payload -> bool) (l : list WebSocket) (sock : WebSocket) :
  sent sock = [] ->
  length (List.filter f (concat (map sent (l ++ [sock])%list)))
  = length (List.filter f (concat (map sent l))).
Proof.
  intros Hs. rewrite map_app, concat_app. cbn. rewrite Hs.
  rewrite !app_nil_r. reflexivity.
Qed.

Lemma turn_ends_send (data : JSValue) (s : nat) (sock : WebSocket) (w : World U) :
  ws (this w) = Some s -> sockets w !! s = Some sock -> readyState sock = OPEN ->
  turn_ends (send data w)
  = turn_ends w + (if is_turn_end (TextData (JSON_stringify data)) then 1 else 0).
Proof.
  intros Hws Hs Hopen. unfold send, socket_send. rewrite Hws, Hs, Hopen. cbn [is_open].
  unfold turn_ends, set_socket. cbn [sockets set_sockets].
  apply count_sent_insert. exact Hs.
Qed.

(** *** Finding timers *)

Lemma find_none_filter {A : Type} (f : A -> bool) (l : list A) :
  List.find f l = None <-> List.filter f l = [].
Proof.
  induction l as [|a l IH]; cbn; [tauto|].
  destruct (f a); [split; discriminate | exact IH].
Qed.

Lemma find_fresh (l : list (Timer U)) (t : Timer U) :
  Forall (fun t' => timer_id t' <> timer_id t) l ->
  List.find (fun t' => Nat.eqb (timer_id t') (timer_id t)) (l ++ [t])%list = Some t.
Proof.
  induction 1 as [|a l Ha _ IH]; cbn.
  - rewrite Nat.eqb_refl. reflexivity.
  - destruct (Nat.eqb_spec (timer_id a) (timer_id t)); [contradiction | exact IH].
Qed.

Lemma clear_fresh (l : list (Timer U)) (id : nat) :
  Forall (fun t' => timer_id t' <> id) l ->
  List.filter (fun t' => negb (Nat.eqb (timer_id t') id)) l = l.
Proof.
  induction 1 as [|a l Ha _ IH]; cbn; [reflexivity|].
  destruct (Nat.eqb_spec (timer_id a) id); [contradiction|]. cbn. rewrite IH. reflexivity.
Qed.

Lemma filter_filter_none {A : Type} (f g : A -> bool) (l : list A) :
  List.filter f l = [] -> List.filter f (List.filter g l) = [].
Proof.
  induction l as [|a l IH]; cbn; [reflexivity|].
  destruct (f a) eqn:Ef; [discriminate|]. intros H.
  destruct (g a); cbn; [rewrite Ef|]; apply IH; exact H.
Qed.

(** Clearing the timer that [this.turnEndTimer] names leaves no silence
    timeout pending. *)
Lemma clear_turn_end (w : World U) (t : nat) :
  timers_wf w -> turnEndTimer (this w) = Some t ->
  List.filter is_turn_end_timer (timers (clearTimeout t w)) = [].
Proof.
  intros (_ & _ & Hturn) Ht. cbn [clearTimeout timers set_timers].
  induction Hturn as [|a l Ha _ IH]; cbn; [reflexivity|].
  destruct (Nat.eqb_spec (timer_id a) t) as [E|E]; cbn; [exact IH|].
  destruct (is_turn_end_timer a) eqn:Ea; [|exact IH].
  exfalso. apply E. specialize (Ha eq_refl). congruence.
Qed.

Lemma no_turn_end_timer (w : World U) :
  timers_wf w -> turnEndTimer (this w) = None ->
  List.filter is_turn_end_timer (timers w) = [].
Proof.
  intros (_ & _ & Hturn) Ht.
  induction Hturn as [|a l Ha _ IH]; cbn; [reflexivity|].
  destruct (is_turn_end_timer a) eqn:Ea; [|exact IH].
  specialize (Ha eq_refl). congruence.
Qed.

(** *** Silence *)

(** With no silence timeout pending, the passing of time sends no
    [turn_end], however long it lasts. *)
Lemma silence_sends_nothing (es : list Event) (w : World U) :
  Forall (fun e => silent e = true) es ->
  List.filter is_turn_end_timer (timers w) = [] ->
  turn_ends (run es w) = turn_ends w.
Proof.
  intros Hes. revert w. induction Hes as [|e es He _ IH]; intros w Hw; [reflexivity|].
  rewrite run_cons.
  assert (turn_ends (step e w) = turn_ends w
          /\ List.filter is_turn_end_timer (timers (step e w)) = []) as [E1 E2].
  { destruct e; try discriminate He; cbn [Client.step].
    - destruct (0 <=? ms)%Z; split; auto.
    - destruct (List.find (fun t => Nat.eqb (timer_id t) id) (timers w)) as [t|] eqn:Hf;
        [|split; auto].
      destruct (due t <=? now w)%Z; [|split; auto].
      assert (is_turn_end_timer t = false) as Ht.
      { apply find_some in Hf. destruct Hf as [Hin _].
        destruct (is_turn_end_timer t) eqn:E; [|reflexivity].
        assert (In t (List.filter is_turn_end_timer (timers w))) as Hin'
          by (apply filter_In; split; assumption).
        rewrite Hw in Hin'. destruct Hin'. }
      assert (List.filter is_turn_end_timer (timers (clearTimeout id w)) = []) as Hc
        by (apply filter_filter_none; exact Hw).
      unfold fireTimer, is_turn_end_timer in *.
      destruct (action t) as [|b u|f]; [discriminate| |].
      + split; [|exact Hc].
        unfold turn_ends, connect. cbn. apply count_sent_snoc. reflexivity.
      + split; [reflexivity | exact Hc]. }
  rewrite (IH _ E2). exact E1.
Qed.

Lemma resetTurnEndTimer_spec (w : World U) :
  timers_wf w ->
  exists old,
    List.filter is_turn_end_timer old = []
    /\ Forall (fun t' => timer_id t' < nextTimer w) old
    /\ resetTurnEndTimer w
       = set_turnEndTimer (Some (nextTimer w))
           (set_timers (old ++ [{| timer_id := nextTimer w; due := now w + silenceDuration;
                                   action := TurnEndTimeout |}])%list
                       (S (nextTimer w)) w).
Proof.
  intros Hwf. unfold resetTurnEndTimer.
  destruct (turnEndTimer (this w)) as [t|] eqn:Ht.
  - exists (timers (clearTimeout t w)). split; [|split].
    + apply clear_turn_end; assumption.
    + destruct Hwf as (_ & Hlt & _). cbn [clearTimeout timers set_timers].
      clear -Hlt. induction Hlt as [|a l Ha _ IH]; cbn; [constructor|].
      destruct (negb (Nat.eqb (timer_id a) t)); [constructor|]; assumption.
    + reflexivity.
  - exists (timers w). split; [|split].
    + apply no_turn_end_timer; assumption.
    + apply Hwf.
    + reflexivity.
Qed.

Lemma below_fresh (l : list (Timer U)) (n : nat) :
  Forall (fun t' => timer_id t' < n) l -> Forall (fun t' => timer_id t' <> n) l.
Proof.
  induction 1 as [|a l Ha _ IH]; constructor; [lia | exact IH].
Qed.

(** A due silence timeout, fired on a connected client with an open
    socket, sends one [turn_end] and is gone. *)
Lemma fire_turn_end (w : World U) (old : list (Timer U)) (new : Timer U)
    (s : nat) (sock : WebSocket) :
  timers w = (old ++ [new])%list ->
  action new = TurnEndTimeout ->
  Forall (fun t' => timer_id t' <> timer_id new) old ->
  (due new <= now w)%Z ->
  isConnected (this w) = true ->
  ws (this w) = Some s -> sockets w !! s = Some sock -> readyState sock = OPEN ->
  turn_ends (step (TimerFire (timer_id new)) w) = S (turn_ends w)
  /\ timers (step (TimerFire (timer_id new)) w) = old.
Proof.
  intros Ht Ha Hold Hdue Hc Hws Hs Hopen. cbn [Client.step].
  rewrite Ht, (find_fresh old new Hold).
  destruct (Z.leb_spec (due new) (now w)) as [_|]; [|lia].
  unfold fireTimer. rewrite Ha. unfold turnEndTimeout.
  change (isConnected (this (clearTimeout (timer_id new) w))) with (isConnected (this w)).
  rewrite Hc. split.
  - erewrite turn_ends_send; [| exact Hws | exact Hs | exact Hopen ].
    change (is_turn_end (TextData (JSON_stringify (command "turn_end")))) with true.
    cbv iota. unfold turn_ends. cbn [sockets log_console clearTimeout set_timers]. lia.
  - unfold send, socket_send.
    change (ws (this (log_console (console_log "Silence detected - ending turn")
                        (clearTimeout (timer_id new) w)))) with (ws (this w)).
    change (sockets (log_console (console_log "Silence detected - ending turn")
                        (clearTimeout (timer_id new) w))) with (sockets w).
    rewrite Hws, Hs, Hopen. cbn [is_open timers set_socket set_sockets log_console clearTimeout set_timers].
    rewrite Ht, List.filter_app, (clear_fresh old _ Hold). cbn.
    rewrite Nat.eqb_refl. cbn. apply app_nil_r.
Qed.

Lemma fire_early (w : World U) (old : list (Timer U)) (new : Timer U) :
  timers w = (old ++ [new])%list ->
  Forall (fun t' => timer_id t' <> timer_id new) old ->
  (now w < due new)%Z ->
  step (TimerFire (timer_id new)) w = w.
Proof.
  intros Ht Hold Hdue. cbn [Client.step]. rewrite Ht, (find_fresh old new Hold).
  destruct (Z.leb_spec (due new) (now w)); [lia | reflexivity].
Qed.

Lemma silence_timer_spec
    (buffer : ArrayBuffer) (s : nat) (sock : WebSocket) (w : World U) :
  timers_wf w ->
  isConnected (this w) = true ->
  ws (this w) = Some s ->
  sockets w !! s = Some sock ->
  readyState sock = OPEN ->
  let w1 := onArrayBuffer buffer w in
  let id := nextTimer w in
  turnEndTimer (this w1) = Some id
  /\ List.filter is_turn_end_timer (timers w1)
     = [{| timer_id := id; due := now w + silenceDuration; action := TurnEndTimeout |}]
  /\ (forall d, (d < silenceDuration)%Z ->
        turn_ends (run [Elapse d; TimerFire id] w1) = turn_ends w1)
  /\ (forall d es, (silenceDuration <= d)%Z ->
        Forall (fun e => silent e = true) es ->
        turn_ends (run ([Elapse d; TimerFire id] ++ es)%list w1) = S (turn_ends w1)).
Proof.
  intros Hwf Hconn Hws Hs Hopen. cbv zeta.
  set (w0 := sendAudio buffer w).
  set (sock' := with_sent (sent sock ++ [BinaryData buffer])%list sock).
  assert (w0 = set_socket s sock' w) as E0.
  { unfold w0, sendAudio, socket_send. rewrite Hws, Hs, Hopen. reflexivity. }
  assert (timers_wf w0) as Hwf0 by (rewrite E0; exact Hwf).
  destruct (resetTurnEndTimer_spec w0 Hwf0) as (old & Hnone & Hlt & E1).
  unfold onArrayBuffer. fold w0. rewrite E1. clear E1.
  replace (nextTimer w0) with (nextTimer w) in * by (rewrite E0; reflexivity).
  replace (now w0) with (now w) by (rewrite E0; reflexivity).
  set (new := {| timer_id := nextTimer w; due := now w + silenceDuration;
                 action := @TurnEndTimeout U |}).
  set (w1 := set_turnEndTimer (Some (nextTimer w))
               (set_timers (old ++ [new])%list (S (nextTimer w)) w0)).
  assert (Forall (fun t' => timer_id t' <> timer_id new) old) as Hold
    by (apply below_fresh; exact Hlt).
  assert (sockets w1 !! s = Some sock') as Hs1.
  { unfold w1. rewrite E0. cbn [sockets set_turnEndTimer with_this set_timers set_socket set_sockets].
    apply list_lookup_insert_eq. apply lookup_lt_Some in Hs. exact Hs. }
  assert (forall d, let wE := step (Elapse d) w1 in
            timers wE = (old ++ [new])%list /\ isConnected (this wE) = true
            /\ ws (this wE) = Some s /\ sockets wE !! s = Some sock'
            /\ turn_ends wE = turn_ends w1
            /\ now wE = (if (0 <=? d)%Z then now w + d else now w)%Z) as HE.
  { intros d. cbv zeta. cbn [Client.step].
    destruct (0 <=? d)%Z; repeat split; try exact Hs1;
      unfold w1; rewrite E0; cbn; try assumption; try reflexivity. }
  split; [reflexivity|]. split.
  { unfold w1. cbn [timers set_turnEndTimer with_this set_timers].
    rewrite List.filter_app, Hnone. reflexivity. }
  split.
  - intros d Hd. rewrite run_cons, run_cons. cbn [Client.run fold_left].
    destruct (HE d) as (Ht & _ & _ & _ & Hte & Hnow).
    change (nextTimer w) with (timer_id new).
    rewrite (fire_early _ old new Ht Hold); [exact Hte|].
    rewrite Hnow. unfold new, silenceDuration in *. cbn [due].
    destruct (0 <=? d)%Z; lia.
  - intros d es Hd Hes. rewrite run_app, run_cons, run_cons. cbn [Client.run fold_left].
    fold (run es (step (TimerFire (nextTimer w)) (step (Elapse d) w1))).
    destruct (HE d) as (Ht & Hc & Hw & Hsk & Hte & Hnow).
    change (nextTimer w) with (timer_id new).
    assert (due new <= now (step (Elapse d) w1))%Z as Hdue.
    { rewrite Hnow. unfold new, silenceDuration in *. cbn [due].
      destruct (Z.leb_spec 0 d); lia. }
    destruct (fire_turn_end _ old new s sock' Ht eq_refl Hold Hdue Hc Hw Hsk Hopen)
      as (Hone & Hgone).
    rewrite silence_sends_nothing; [| exact Hes | rewrite Hgone; exact Hnone ].
    rewrite Hone, Hte. reflexivity.
Qed.

(** C3, as the code has it: while connected, a captured chunk, once its
    bytes have been read, cancels the pending silence timeout and arms one
    for 2000 ms later.  Fired before that time it does nothing; fired after
    2000 ms or more without a new chunk it sends one [turn_end], and it is
    then spent: however long the silence goes on, no further [turn_end] is
    sent (a new chunk is what arms the timer again). *)
Theorem silence_timer_fires_once
    (k : nat) (buffer : ArrayBuffer) (s : nat) (sock : WebSocket) (w : World U) :
  timers_wf w ->
  isConnected (this w) = true ->
  ws (this w) = Some s ->
  sockets w !! s = Some sock ->
  readyState sock = OPEN ->
  blobReads w !! k = Some buffer ->
  let w1 := step (BlobRead k) w in
  let id := nextTimer w in
  turnEndTimer (this w1) = Some id
  /\ List.filter is_turn_end_timer (timers w1)
     = [{| timer_id := id; due := now w + silenceDuration; action := TurnEndTimeout |}]
  /\ (forall d, (d < silenceDuration)%Z ->
        turn_ends (run [Elapse d; TimerFire id] w1) = turn_ends w1)
  /\ (forall d es, (silenceDuration <= d)%Z ->
        Forall (fun e => silent e = true) es ->
        turn_ends (run ([Elapse d; TimerFire id] ++ es)%list w1) = S (turn_ends w1)).
Proof.
  intros Hwf Hc Hws Hs Hopen Hk. cbn [Client.step]. rewrite Hk.
  exact (silence_timer_spec buffer s sock (set_blobReads (delete k (blobReads w)) w)
           Hwf Hc Hws Hs Hopen).
Qed.

(** *** Well-formed timers *)

Lemma timers_wf_same (w w' : World U) :
  timers w' = timers w -> nextTimer w' = nextTimer w ->
  turnEndTimer (this w') = turnEndTimer (this w) ->
  timers_wf w -> timers_wf w'.
Proof. unfold timers_wf. intros -> -> ->. tauto. Qed.

(** The timeouts a callback sets are appended with fresh identifiers. *)
Lemma setTimeout_fold_timers (l : list (Z * (U -> U))) (w : World U) :
  let w' := fold_left (fun acc df => snd (setTimeout (CallerTimeout (snd df)) (fst df) acc)) l w in
  exists extra,
    timers w' = (timers w ++ extra)%list
    /\ Forall (fun t => is_reconnect_timer t = false /\ is_turn_end_timer t = false
                        /\ nextTimer w <= timer_id t /\ timer_id t < nextTimer w') extra
    /\ NoDup (map timer_id extra)
    /\ nextTimer w <= nextTimer w'.
Proof.
  revert w. induction l as [|df l IH]; intros w; cbn [fold_left].
  - exists []. rewrite app_nil_r. repeat split; [constructor | constructor | lia].
  - set (wa := snd (setTimeout (CallerTimeout (snd df)) (fst df) w)).
    specialize (IH wa). cbv zeta in IH.
    set (w' := fold_left _ l wa) in *.
    destruct IH as (extra & Et & Hex & Hnd & Hle).
    set (t0 := {| timer_id := nextTimer w; due := now w + fst df;
                  action := CallerTimeout (snd df) |}).
    change (timers wa) with (timers w ++ [t0])%list in Et.
    change (nextTimer wa) with (S (nextTimer w)) in Hex, Hle.
    exists (t0 :: extra). split; [|split; [|split]].
    + rewrite Et, <- app_assoc. reflexivity.
    + constructor.
      * repeat split; cbn; lia.
      * eapply List.Forall_impl; [|exact Hex]. cbn. intros t (? & ? & ? & ?).
        repeat split; try assumption; lia.
    + cbn. constructor; [|exact Hnd].
      intros Hin. apply list_elem_of_In, List.in_map_iff in Hin.
      destruct Hin as (t & Eid & Hin).
      rewrite List.Forall_forall in Hex. destruct (Hex t Hin) as (_ & _ & Hlow & _). lia.
    + lia.
Qed.

Lemma invoke_timers (c : Call) (h : U -> CbResult U) (w : World U) :
  timers_wf w ->
  let w' := fst (invoke c h w) in
  timers_wf w'
  /\ exists extra,
       timers w' = (timers w ++ extra)%list
       /\ Forall (fun t => is_reconnect_timer t = false /\ is_turn_end_timer t = false) extra.
Proof.
  intros (Hnd & Hlt & Hturn). cbv zeta. unfold invoke. cbn [fst].
  set (w0 := set_ui (cb_ui (h (ui w))) (log_call c w)).
  destruct (setTimeout_fold_timers (cb_timers (h (ui w))) w0) as (extra & Et & Hex & Hnd' & Hle).
  cbv zeta in Et, Hex, Hle.
  set (w' := fold_left _ _ w0) in *.
  change (timers w0) with (timers w) in Et. change (nextTimer w0) with (nextTimer w) in Hex, Hle.
  assert (this w' = this w) as Eth.
  { pose proof (setTimeout_fold_keeps (cb_timers (h (ui w))) w0) as K. apply K. }
  split.
  - unfold timers_wf. rewrite Et, Eth. split; [|split].
    + rewrite map_app. apply NoDup_app. split; [exact Hnd | split; [| exact Hnd']].
      intros a Ha Hb. apply list_elem_of_In, List.in_map_iff in Ha.
      apply list_elem_of_In, List.in_map_iff in Hb.
      destruct Ha as (t1 & <- & H1), Hb as (t2 & E2 & H2).
      rewrite List.Forall_forall in Hlt, Hex.
      specialize (Hlt t1 H1). destruct (Hex t2 H2) as (_ & _ & ? & _). lia.
    + apply List.Forall_app. split.
      * eapply List.Forall_impl; [|exact Hlt]. cbn. intros; lia.
      * eapply List.Forall_impl; [|exact Hex]. cbn. intros t (_ & _ & _ & ?). assumption.
    + apply List.Forall_app. split; [exact Hturn|].
      eapply List.Forall_impl; [|exact Hex]. cbn. intros t (_ & E & _) E'. congruence.
  - exists extra. split; [exact Et|].
    eapply List.Forall_impl; [|exact Hex]. cbn. tauto.
Qed.

Lemma setTimeout_wf (a : TimerAction U) (d : Z) (w : World U) :
  timers_wf w ->
  a <> TurnEndTimeout ->
  timers_wf (snd (setTimeout a d w)).
Proof.
  intros (Hnd & Hlt & Hturn) Ha. unfold timers_wf. cbn. split; [|split].
  - rewrite map_app. apply NoDup_app. split; [exact Hnd | split].
    + intros x Hx Hy. apply list_elem_of_In, List.in_map_iff in Hx.
      destruct Hx as (t & <- & Hin). rewrite List.Forall_forall in Hlt.
      specialize (Hlt t Hin). cbn in Hy. apply list_elem_of_In in Hy.
      destruct Hy as [Hy|[]]. lia.
    + cbn. apply NoDup_singleton.
  - apply List.Forall_app. split.
    + eapply List.Forall_impl; [|exact Hlt]. cbn. intros; lia.
    + constructor; [cbn; lia | constructor].
  - apply List.Forall_app. split; [exact Hturn|].
    constructor; [|constructor]. unfold is_turn_end_timer. cbn.
    destruct a; [contradiction | discriminate | discriminate].
Qed.

Lemma clearTimeout_wf (id : nat) (w : World U) :
  timers_wf w -> timers_wf (clearTimeout id w).
Proof.
  intros (Hnd & Hlt & Hturn). unfold timers_wf. cbn.
  set (f := fun t : Timer U => negb (Nat.eqb (timer_id t) id)).
  split; [|split].
  - clear Hlt Hturn. induction (timers w) as [|a l IH]; cbn; [constructor|].
    apply NoDup_cons in Hnd. destruct Hnd as [Ha Hl].
    destruct (f a); cbn; [|apply IH; exact Hl].
    apply NoDup_cons. split; [|apply IH; exact Hl].
    intros Hin. apply Ha. apply list_elem_of_In, List.in_map_iff in Hin.
    destruct Hin as (t & Et & Hin). apply List.filter_In in Hin.
    apply list_elem_of_In, List.in_map_iff. exists t. tauto.
  - apply List.Forall_forall. intros t Hin. apply List.filter_In in Hin.
    rewrite List.Forall_forall in Hlt. apply Hlt. tauto.
  - apply List.Forall_forall. intros t Hin. apply List.filter_In in Hin.
    rewrite List.Forall_forall in Hturn. apply Hturn. tauto.
Qed.

(** What the close handler does to the timers, the attempt counter and
    the call trace. *)
Lemma ws_onclose_spec (sock : WebSocket) (w : World U) :
  timers_wf w ->
  pendingReconnect w = None ->
  never_throws (onDisconnected config) ->
  let w1 := ws_onclose config sock w in
  sockets w1 = sockets w /\ ws (this w1) = ws (this w) /\ now w1 = now w
  /\ timers_wf w1
  /\ (exists k, calls w1 = (calls w ++ repeat CallDisconnected k)%list)
  /\ if Nat.ltb (reconnectAttempts (this w)) maxReconnectAttempts
     then reconnectAttempts (this w1) = S (reconnectAttempts (this w))
          /\ exists rest id,
               timers w1 = (rest ++ [{| timer_id := id; due := now w + reconnectDelay;
                                        action := ReconnectTimeout (businessId sock)
                                                                   (userId sock) |}])%list
               /\ List.filter is_reconnect_timer rest = []
     else reconnectAttempts (this w1) = reconnectAttempts (this w)
          /\ List.filter is_reconnect_timer (timers w1) = [].
Proof.
  intros Hwf Hpend Hthrow. cbv zeta. unfold ws_onclose.
  set (wa := set_isConnected false (log_console (console_log "WebSocket disconnected") w)).
  assert (timers_wf wa) as Hwfa by exact Hwf.
  apply find_none_filter in Hpend.
  assert (exists wb,
             match onDisconnected config with
             | Some h => invoke CallDisconnected h wa
             | None => (wa, None)
             end = (wb, None)
             /\ timers_wf wb /\ sockets wb = sockets w /\ this wb = this wa /\ now wb = now w
             /\ (exists k, calls wb = (calls w ++ repeat CallDisconnected k)%list)
             /\ List.filter is_reconnect_timer (timers wb) = []) as (wb & -> & Hwfb & Es & Et & En & Ec & Ef).
  { destruct (onDisconnected config) as [h|] eqn:Eh.
    - exists (fst (invoke CallDisconnected h wa)).
      destruct (invoke_timers CallDisconnected h wa Hwfa) as (Hwf' & extra & Ex & Hex).
      pose proof (invoke_keeps CallDisconnected h wa) as K. cbv zeta in K.
      destruct K as (Kt & Ks & _ & _ & _ & _ & Kn & _ & _ & _ & Kc & _).
      split; [|split; [exact Hwf'|split; [exact Ks|split; [exact Kt|split; [exact Kn|split]]]]].
      + unfold invoke. cbn [fst]. f_equal. apply (Hthrow h eq_refl).
      + exists 1. exact Kc.
      + rewrite Ex, List.filter_app. change (timers wa) with (timers w). rewrite Hpend. cbn.
        clear -Hex. induction Hex as [|t l (Hr & _) _ IH]; cbn; [reflexivity|].
        rewrite Hr. exact IH.
    - exists wa.
      split; [reflexivity|split; [exact Hwfa|split; [reflexivity|split; [reflexivity|split; [reflexivity|split]]]]].
      + exists 0. cbn. rewrite app_nil_r. reflexivity.
      + exact Hpend. }
  change (reconnectAttempts (this wb)) with (reconnectAttempts (this wb)).
  rewrite Et. change (reconnectAttempts (this wa)) with (reconnectAttempts (this w)).
  destruct (Nat.ltb (reconnectAttempts (this w)) maxReconnectAttempts).
  - set (wc := log_console _ (set_reconnectAttempts (S (reconnectAttempts (this w))) wb)).
    assert (timers_wf wc) as Hwfc.
    { apply (timers_wf_same wb); [reflexivity | reflexivity | reflexivity | exact Hwfb]. }
    split; [exact Es|]. split; [cbn; rewrite Et; reflexivity|]. split; [exact En|].
    split; [apply setTimeout_wf; [exact Hwfc | discriminate]|].
    split; [exact Ec|]. split; [reflexivity|].
    exists (timers wb), (nextTimer wb). split; [|exact Ef].
    cbn. rewrite En. reflexivity.
  - split; [exact Es|]. split; [rewrite Et; reflexivity|]. split; [exact En|].
    split; [exact Hwfb|]. split; [exact Ec|]. split; [rewrite Et; reflexivity | exact Ef].
Qed.

Lemma find_snoc_only {A : Type} (f : A -> bool) (l : list A) (x : A) :
  List.filter f l = [] -> f x = true -> List.find f (l ++ [x])%list = Some x.
Proof.
  intros Hl Hx. induction l as [|a l IH]; cbn in *.
  - rewrite Hx. reflexivity.
  - destruct (f a); [discriminate | apply IH; exact Hl].
Qed.

Lemma nodup_snoc_fresh (l : list (Timer U)) (t : Timer U) :
  NoDup (map timer_id (l ++ [t])%list) ->
  Forall (fun t' => timer_id t' <> timer_id t) l.
Proof.
  rewrite map_app. intros Hnd. apply NoDup_app in Hnd. destruct Hnd as (_ & Hd & _).
  apply List.Forall_forall. intros t' Hin E. apply (Hd (timer_id t')).
  - apply list_elem_of_In, List.in_map_iff. exists t'. split; [reflexivity | exact Hin].
  - rewrite E. cbn. apply list_elem_of_here.
Qed.

Lemma reconnects_insert (l : list WebSocket) (s : nat) (sock sock' : WebSocket) :
  l !! s = Some sock -> origin sock' = origin sock ->
  length (List.filter (fun k => match origin k with ByReconnect => true | ByCaller => false end)
            (<[s := sock']> l))
  = length (List.filter (fun k => match origin k with ByReconnect => true | ByCaller => false end) l).
Proof.
  revert s. induction l as [|a l IH]; intros s Hs Ho; [discriminate|].
  destruct s as [|s].
  - injection Hs as ->. change (<[0 := sock']> (sock :: l)) with (sock' :: l).
    cbn. rewrite Ho. destruct (origin sock); reflexivity.
  - change (<[S s := sock']> (a :: l)) with (a :: <[s := sock']> l).
    cbn. specialize (IH s Hs Ho). destruct (origin a); cbn; rewrite IH; reflexivity.
Qed.

(** One closure of a live socket, and the retry if one was scheduled. *)
Lemma close_then_retry_spec (s : nat) (sock : WebSocket) (w : World U) :
  timers_wf w ->
  pendingReconnect w = None ->
  never_throws (onDisconnected config) ->
  ws (this w) = Some s -> sockets w !! s = Some sock -> is_closed (readyState sock) = false ->
  let w' := close_then_retry JSON_parse config connectRejected recordingRejected w in
  timers_wf w' /\ pendingReconnect w' = None
  /\ (exists k, calls w' = (calls w ++ repeat CallDisconnected k)%list)
  /\ (reconnectAttempts (this w) < maxReconnectAttempts ->
      exists id, pendingReconnect (step (WsClose s) w)
                 = Some {| timer_id := id; due := now w + reconnectDelay;
                           action := ReconnectTimeout (businessId sock) (userId sock) |})
  /\ if Nat.ltb (reconnectAttempts (this w)) maxReconnectAttempts
     then live w' /\ reconnectAttempts (this w') = S (reconnectAttempts (this w))
          /\ reconnects w' = S (reconnects w)
     else ~ live w' /\ reconnects w' = reconnects w.
Proof.
  intros Hwf Hpend Hthrow Hws Hs Hcl. cbv zeta.
  unfold close_then_retry. rewrite Hws. cbn [Client.step]. rewrite Hs, Hcl.
  set (sock0 := with_readyState CLOSED sock).
  set (w0 := set_socket s sock0 w).
  assert (timers_wf w0) as Hwf0 by exact Hwf.
  assert (pendingReconnect w0 = None) as Hpend0 by exact Hpend.
  destruct (ws_onclose_spec sock w0 Hwf0 Hpend0 Hthrow) as (Es & Ew & En & Hwf1 & Ec & Hcase).
  cbv zeta in Es, Ew, En, Hwf1, Ec, Hcase.
  set (w1 := ws_onclose config sock w0) in *.
  change (ws (this w0)) with (ws (this w)) in Ew.
  change (now w0) with (now w) in En, Hcase.
  change (calls w0) with (calls w) in Ec.
  change (reconnectAttempts (this w0)) with (reconnectAttempts (this w)) in Hcase.
  assert (sockets w0 !! s = Some sock0) as Hs0.
  { apply list_lookup_insert_eq. apply lookup_lt_Some in Hs. exact Hs. }
  assert (reconnects w0 = reconnects w) as Er0.
  { unfold reconnects, w0. cbn [sockets set_socket set_sockets].
    apply (reconnects_insert _ s sock); [exact Hs | reflexivity]. }
  destruct (Nat.ltb_spec (reconnectAttempts (this w)) maxReconnectAttempts) as [Hlt|Hge].
  - destruct Hcase as (Ea & rest & id & Et & Hrest).
    set (R := {| timer_id := id; due := now w + reconnectDelay;
                 action := ReconnectTimeout (businessId sock) (userId sock) |}) in *.
    assert (pendingReconnect w1 = Some R) as Hp1.
    { unfold pendingReconnect. rewrite Et. apply find_snoc_only; [exact Hrest | reflexivity]. }
    rewrite Hp1.
    assert (Forall (fun t' => timer_id t' <> timer_id R) rest) as Hfresh.
    { apply nodup_snoc_fresh. rewrite <- Et. apply Hwf1. }
    set (wE := set_now (now w1 + reconnectDelay) w1).
    set (wF := clearTimeout id wE).
    assert (run [Elapse reconnectDelay; TimerFire (timer_id R)] w1
            = connect (businessId sock) (userId sock) ByReconnect wF) as Erun.
    { cbn [Client.run fold_left Client.step].
      change (0 <=? reconnectDelay)%Z with true. cbv iota. fold wE.
      change (timers wE) with (timers w1). rewrite Et.
      rewrite (find_fresh rest R Hfresh).
      change (now wE) with (now w1 + reconnectDelay)%Z. rewrite En.
      change (due R) with (now w + reconnectDelay)%Z. rewrite Z.leb_refl.
      reflexivity. }
    rewrite Erun. clear Erun.
    assert (timers wF = rest) as EtF.
    { unfold wF. cbn [clearTimeout timers set_timers]. change (timers wE) with (timers w1).
      rewrite Et, List.filter_app, (clear_fresh rest id Hfresh). cbn.
      rewrite Nat.eqb_refl. cbn. apply app_nil_r. }
    assert (timers_wf wF) as HwfF.
    { apply clearTimeout_wf. apply (timers_wf_same w1); [reflexivity .. | exact Hwf1]. }
    set (w' := connect (businessId sock) (userId sock) ByReconnect wF).
    split; [apply (timers_wf_same wF); [reflexivity .. | exact HwfF]|].
    split.
    { unfold pendingReconnect. change (timers w') with (timers wF). rewrite EtF.
      apply find_none_filter. exact Hrest. }
    split; [exact Ec|].
    split; [intros _; exists id; reflexivity|].
    split; [|split].
    + exists (length (sockets wF)),
        {| readyState := CONNECTING; sent := []; businessId := businessId sock;
           userId := userId sock; origin := ByReconnect; promise := Pending |}.
      split; [reflexivity|]. split; [|reflexivity].
      unfold w', connect. cbn [sockets set_ws with_this set_sockets].
      rewrite lookup_app_r by reflexivity. rewrite Nat.sub_diag. reflexivity.
    + exact Ea.
    + unfold reconnects, w', connect. cbn [sockets set_ws with_this set_sockets].
      change (sockets wF) with (sockets w1). rewrite Es.
      rewrite List.filter_app, length_app. fold (reconnects w0). rewrite Er0.
      cbn. unfold reconnects. lia.
  - destruct Hcase as (Ea & Hnone).
    assert (pendingReconnect w1 = None) as Hp1 by (apply find_none_filter; exact Hnone).
    rewrite Hp1.
    split; [exact Hwf1|]. split; [exact Hp1|]. split; [exact Ec|].
    split; [intros; lia|]. split.
    + intros (s' & sock' & Hws' & Hs' & Hcl'). rewrite Ew, Hws in Hws'. injection Hws' as <-.
      rewrite Es, Hs0 in Hs'. injection Hs' as <-. discriminate.
    + unfold reconnects. rewrite Es. exact Er0.
Qed.

Lemma close_then_retry_dead (w : World U) :
  ~ live w -> pendingReconnect w = None ->
  close_then_retry JSON_parse config connectRejected recordingRejected w = w.
Proof.
  intros Hdead Hpend. unfold close_then_retry.
  destruct (ws (this w)) as [s|] eqn:Hws; [|reflexivity].
  assert (step (WsClose s) w = w) as ->.
  { cbn [Client.step]. destruct (sockets w !! s) as [sock|] eqn:Hs; [|reflexivity].
    destruct (is_closed (readyState sock)) eqn:Hcl; [reflexivity|].
    exfalso. apply Hdead. exists s, sock. auto. }
  rewrite Hpend. reflexivity.
Qed.

Lemma closures_dead (n : nat) (w : World U) :
  ~ live w -> pendingReconnect w = None ->
  closures JSON_parse config connectRejected recordingRejected n w = w.
Proof.
  intros Hdead Hpend. induction n as [|n IH]; [reflexivity|].
  cbn [closures]. rewrite close_then_retry_dead by assumption. exact IH.
Qed.

Lemma closures_live (n : nat) :
  forall w : World U,
    timers_wf w -> pendingReconnect w = None ->
    never_throws (onDisconnected config) ->
    live w ->
    let w' := closures JSON_parse config connectRejected recordingRejected n w in
    reconnects w' = reconnects w + Nat.min n (maxReconnectAttempts - reconnectAttempts (this w))
    /\ pendingReconnect w' = None
    /\ (exists k, calls w' = (calls w ++ repeat CallDisconnected k)%list).
Proof.
  induction n as [|n IH]; intros w Hwf Hpend Hthrow Hlive; cbv zeta.
  - cbn [closures]. split; [cbn; lia|]. split; [exact Hpend|].
    exists 0. cbn. rewrite app_nil_r. reflexivity.
  - cbn [closures]. destruct Hlive as (s & sock & Hws & Hs & Hcl).
    destruct (close_then_retry_spec s sock w Hwf Hpend Hthrow Hws Hs Hcl)
      as (Hwf' & Hpend' & (k1 & Ec1) & _ & Hcase).
    cbv zeta in Hwf', Hpend', Ec1, Hcase.
    set (w1 := close_then_retry JSON_parse config connectRejected recordingRejected w) in *.
    destruct (Nat.ltb_spec (reconnectAttempts (this w)) maxReconnectAttempts) as [Hlt|Hge].
    + destruct Hcase as (Hlive' & Ea & Er).
      destruct (IH w1 Hwf' Hpend' Hthrow Hlive') as (E1 & E2 & (k2 & Ec2)).
      cbv zeta in E1, E2, Ec2. split; [|split; [exact E2|]].
      * rewrite E1, Er, Ea. unfold maxReconnectAttempts in *. lia.
      * exists (k1 + k2). rewrite Ec2, Ec1, <- app_assoc, repeat_app. reflexivity.
    + destruct Hcase as (Hdead & Er).
      rewrite (closures_dead n w1 Hdead Hpend').
      split; [|split; [exact Hpend'|exists k1; exact Ec1]].
      rewrite Er. unfold maxReconnectAttempts in *. lia.
Qed.

(** C4, as the code has it: after the transport closes the socket the
    client schedules a retry 2000 ms later, as long as fewer than 3
    retries have been scheduled since the last successful open; [n]
    closures in a row lead to [min n 3] reconnect attempts (from a counter
    at [a], [min n (3 - a)]).  When the bound is reached the close handler
    schedules nothing more, and nothing is pending afterwards.  The only
    callback these closures reach is [onDisconnected]: no error is
    reported and the client has no error state of its own. *)
Theorem reconnects_are_bounded (n s : nat) (sock : WebSocket) (w : World U) :
  timers_wf w ->
  pendingReconnect w = None ->
  never_throws (onDisconnected config) ->
  ws (this w) = Some s ->
  sockets w !! s = Some sock ->
  is_closed (readyState sock) = false ->
  let w' := closures JSON_parse config connectRejected recordingRejected n w in
  (reconnectAttempts (this w) < maxReconnectAttempts ->
   exists id, pendingReconnect (step (WsClose s) w)
              = Some {| timer_id := id; due := now w + reconnectDelay;
                        action := ReconnectTimeout (businessId sock) (userId sock) |})
  /\ reconnects w' = reconnects w + Nat.min n (maxReconnectAttempts - reconnectAttempts (this w))
  /\ pendingReconnect w' = None
  /\ (exists k, calls w' = (calls w ++ repeat CallDisconnected k)%list).
Proof.
  intros Hwf Hpend Hthrow Hws Hs Hcl. cbv zeta. split.
  - apply (close_then_retry_spec s sock w Hwf Hpend Hthrow Hws Hs Hcl).
  - apply closures_live; try assumption. exists s, sock. auto.
Qed.

(** *** Well-formed timers in every reachable world *)

Lemma wf_without_turn_end (w : World U) :
  NoDup (map timer_id (timers w)) ->
  Forall (fun t => timer_id t < nextTimer w) (timers w) ->
  List.filter is_turn_end_timer (timers w) = [] ->
  timers_wf w.
Proof.
  intros Hnd Hlt Hno. split; [exact Hnd|]. split; [exact Hlt|].
  apply List.Forall_forall. intros t Hin Ht.
  assert (In t (List.filter is_turn_end_timer (timers w))) as Hin'
    by (apply List.filter_In; split; assumption).
  rewrite Hno in Hin'. destruct Hin'.
Qed.

Lemma invoke_wf (c : Call) (h : U -> CbResult U) (w : World U) :
  timers_wf w -> timers_wf (fst (invoke c h w)).
Proof. intros H. apply (invoke_timers c h w H). Qed.

Lemma socket_send_wf (p : Payload) (w : World U) :
  timers_wf w -> timers_wf (socket_send p w).
Proof.
  intros H. unfold socket_send. destruct (ws (this w)) as [s|]; [|exact H].
  destruct (sockets w !! s) as [sock|]; [|exact H].
  destruct (is_open (readyState sock)); exact H.
Qed.

Lemma handleMessage_wf (message : JSValue) (w : World U) :
  timers_wf w -> timers_wf (fst (handleMessage config message w)).
Proof.
  intros H. unfold handleMessage.
  destruct (get_prop message "type") as [type|]; [|exact H].
  switch_cases type;
    try (apply invoke_wf; exact H); try exact H.
  unfold send. cbn [fst]. apply socket_send_wf. exact H.
Qed.

Lemma afterPlayAudioQueue_wf (data : ArrayBuffer) (w : World U) :
  timers_wf w -> timers_wf (afterPlayAudioQueue config data w).
Proof.
  intros H. unfold afterPlayAudioQueue. destruct (onAudioReceived config) as [h|]; [|exact H].
  pose proof (invoke_wf (CallAudioReceived data) (h data) w H) as K.
  destruct (invoke (CallAudioReceived data) (h data) w) as [w' [e|]]; exact K.
Qed.

Lemma whileQueue_wf (i : nat) (n : ArrayBuffer) (queue : list ArrayBuffer) (w : World U) :
  timers_wf w -> timers_wf (whileQueue config i n queue w).
Proof.
  revert w. induction queue as [|a queue IH]; intros w H; cbn [whileQueue].
  - unfold finishLoop. apply afterPlayAudioQueue_wf. exact H.
  - destruct (audioContext (this (set_audioQueue queue w))); [exact H|].
    apply IH. exact H.
Qed.

Lemma playAudioQueue_wf (n : ArrayBuffer) (w : World U) :
  timers_wf w -> timers_wf (playAudioQueue config n w).
Proof.
  intros H. unfold playAudioQueue.
  destruct (isPlaying (this w) || Nat.eqb (length (audioQueue (this w))) 0).
  - apply afterPlayAudioQueue_wf. exact H.
  - apply whileQueue_wf.
    destruct (audioContext (this (set_isPlaying true w))); exact H.
Qed.

Lemma ws_onmessage_wf (f : Frame) (w : World U) :
  timers_wf w -> timers_wf (fst (ws_onmessage JSON_parse config f w)).
Proof.
  intros H. destruct f as [d|data]; cbn [ws_onmessage fst].
  - apply playAudioQueue_wf. exact H.
  - unfold tryHandle. destruct (JSON_parse data) as [message|]; [|exact H].
    pose proof (handleMessage_wf message w H) as K.
    destruct (handleMessage config message w) as [w' [e|]]; exact K.
Qed.

Lemma settle_wf (s : nat) (p : PromiseState) (w : World U) :
  timers_wf w -> timers_wf (settle s p w).
Proof.
  intros H. unfold settle. destruct (sockets w !! s) as [sock|]; [|exact H].
  destruct (promise sock); exact H.
Qed.

Lemma ws_onerror_wf (s : nat) (sock : WebSocket) (w : World U) :
  timers_wf w -> timers_wf (ws_onerror config connectRejected s sock w).
Proof.
  intros H. unfold ws_onerror.
  set (w0 := log_console (console_error "WebSocket error:") w).
  assert (timers_wf w0) as H0 by exact H.
  assert (forall r : World U * option JSError,
             timers_wf (fst r) ->
             timers_wf (let '(w1, thrown) := r in
                    match thrown with
                    | Some _ => w1
                    | None =>
                        match promise sock with
                        | Pending =>
                            let w2 := settle s Rejected w1 in
                            match origin sock with
                            | ByCaller => set_ui (connectRejected (ui w2)) w2
                            | ByReconnect => log_console (console_error "[object Event]") w2
                            end
                        | _ => w1
                        end
                    end)) as K.
  { intros [w1 [e|]] H1; cbn [fst] in H1; [exact H1|].
    destruct (promise sock); try exact H1. cbv zeta.
    pose proof (settle_wf s Rejected w1 H1) as H2.
    destruct (origin sock); exact H2. }
  apply K. destruct (onError config) as [h|]; [|exact H0].
  apply invoke_wf. exact H0.
Qed.

Lemma ws_onclose_wf (sock : WebSocket) (w : World U) :
  timers_wf w -> timers_wf (ws_onclose config sock w).
Proof.
  intros H. unfold ws_onclose. cbv zeta.
  set (w0 := set_isConnected false (log_console (console_log "WebSocket disconnected") w)).
  set (r := match onDisconnected config with
            | Some h => invoke CallDisconnected h w0
            | None => (w0, None)
            end).
  assert (timers_wf (fst r)) as Hr.
  { unfold r. destruct (onDisconnected config) as [h|]; [|exact H].
    apply invoke_wf. exact H. }
  destruct r as [w1 [e|]]; cbn [fst] in Hr; [exact Hr|].
  destruct (Nat.ltb _ _); [|exact Hr].
  apply setTimeout_wf; [exact Hr | discriminate].
Qed.

Lemma startRecordingFailed_wf (e : JSError) (w : World U) :
  timers_wf w -> timers_wf (startRecordingFailed config recordingRejected e w).
Proof.
  intros H. unfold startRecordingFailed.
  set (w0 := log_console (console_error "Error starting recording:") w).
  assert (timers_wf w0) as H0 by exact H.
  assert (forall r : World U * option JSError,
             timers_wf (fst r) ->
             timers_wf (let '(w1, thrown) := r in
                        set_ui (recordingRejected (default e thrown) (ui w1)) w1)) as K.
  { intros [w1 thrown] H1. exact H1. }
  apply K. destruct (onError config) as [h|]; [|exact H0].
  apply invoke_wf. exact H0.
Qed.

(** Dropping the timer that [this.turnEndTimer] names, and the name. *)
Lemma drop_turn_end_wf (w : World U) :
  timers_wf w ->
  timers_wf (match turnEndTimer (this w) with
             | Some t => set_turnEndTimer None (clearTimeout t w)
             | None => w
             end).
Proof.
  intros H. destruct (turnEndTimer (this w)) as [t|] eqn:Et; [|exact H].
  pose proof (clearTimeout_wf t w H) as (Hnd & Hlt & _).
  apply wf_without_turn_end; [exact Hnd | exact Hlt |].
  exact (clear_turn_end w t H Et).
Qed.

Lemma stopRecording_wf (w : World U) : timers_wf w -> timers_wf (stopRecording w).
Proof.
  intros H. unfold stopRecording.
  pose proof (drop_turn_end_wf w H) as H0.
  set (w0 := match turnEndTimer (this w) with
             | Some t => set_turnEndTimer None (clearTimeout t w)
             | None => w
             end) in *.
  destruct (mediaRecorder (this w0)) as [r|]; [|exact H0].
  destruct (recorders w0 !! r) as [[|]|]; exact H0.
Qed.

Lemma arm_turn_end_wf (d : Z) (w : World U) :
  NoDup (map timer_id (timers w)) ->
  Forall (fun t => timer_id t < nextTimer w) (timers w) ->
  List.filter is_turn_end_timer (timers w) = [] ->
  timers_wf (set_turnEndTimer (Some (nextTimer w)) (snd (setTimeout TurnEndTimeout d w))).
Proof.
  intros Hnd Hlt Hno. unfold timers_wf. cbn. split; [|split].
  - rewrite map_app. apply NoDup_app. split; [exact Hnd | split].
    + intros x Hx Hy. apply list_elem_of_In, List.in_map_iff in Hx.
      destruct Hx as (t & <- & Hin). rewrite List.Forall_forall in Hlt.
      specialize (Hlt t Hin). cbn in Hy. apply list_elem_of_In in Hy.
      destruct Hy as [Hy|[]]. lia.
    + cbn. apply NoDup_singleton.
  - apply List.Forall_app. split.
    + eapply List.Forall_impl; [|exact Hlt]. cbn. intros; lia.
    + constructor; [cbn; lia | constructor].
  - apply List.Forall_app. split.
    + apply List.Forall_forall. intros t Hin Ht.
      assert (In t (List.filter is_turn_end_timer (timers w))) as Hin'
        by (apply List.filter_In; split; assumption).
      rewrite Hno in Hin'. destruct Hin'.
    + constructor; [reflexivity | constructor].
Qed.

Lemma resetTurnEndTimer_wf (w : World U) :
  timers_wf w -> timers_wf (resetTurnEndTimer w).
Proof.
  intros H. unfold resetTurnEndTimer.
  destruct (turnEndTimer (this w)) as [t|] eqn:Et.
  - pose proof (clearTimeout_wf t w H) as (Hnd & Hlt & _).
    exact (arm_turn_end_wf silenceDuration (clearTimeout t w) Hnd Hlt (clear_turn_end w t H Et)).
  - destruct H as (Hnd & Hlt & Hturn).
    exact (arm_turn_end_wf silenceDuration w Hnd Hlt
             (no_turn_end_timer w (conj Hnd (conj Hlt Hturn)) Et)).
Qed.

Lemma disconnect_wf (w : World U) : timers_wf w -> timers_wf (disconnect w).
Proof.
  intros H. unfold disconnect.
  pose proof (stopRecording_wf w H) as H1.
  set (w1 := clearAudioQueue (stopRecording w)).
  assert (timers_wf w1) as Hw1 by exact H1.
  pose proof (drop_turn_end_wf w1 Hw1) as H2.
  set (w2 := match turnEndTimer (this w1) with
             | Some t => set_turnEndTimer None (clearTimeout t w1)
             | None => w1
             end) in *.
  set (w3 := match audioContext (this w2) with
             | Some _ => set_audioContext None w2
             | None => w2
             end).
  assert (timers_wf w3) as H3 by (unfold w3; destruct (audioContext (this w2)); exact H2).
  assert (timers_wf (match ws (this w3) with
                     | Some s =>
                         let w := send (command "stop") w3 in
                         let w := match sockets w !! s with
                                  | Some sock =>
                                      match readyState sock with
                                      | CONNECTING | OPEN =>
                                          set_socket s (with_readyState CLOSING sock) w
                                      | _ => w
                                      end
                                  | None => w
                                  end in
                         set_ws None w
                     | None => w3
                     end)) as H4.
  { destruct (ws (this w3)) as [s|]; [|exact H3]. cbv zeta.
    pose proof (socket_send_wf (TextData (JSON_stringify (command "stop"))) w3 H3) as H5.
    fold (send (command "stop") w3) in H5.
    destruct (sockets (send (command "stop") w3) !! s) as [sock|]; [|exact H5].
    destruct (readyState sock); exact H5. }
  exact H4.
Qed.

(** Every handler keeps the timers well formed. *)
Lemma timers_wf_step (e : Event) (w : World U) :
  timers_wf w -> timers_wf (step e w).
Proof.
  intros H. destruct e; cbn [Client.step].
  - exact H.
  - unfold startRecording. destruct hasMediaDevices; [exact H|].
    apply startRecordingFailed_wf. exact H.
  - apply stopRecording_wf. exact H.
  - exact H.
  - apply disconnect_wf. exact H.
  - destruct (sockets w !! s) as [sock|]; [|exact H].
    destruct (readyState sock); try exact H.
    unfold ws_onopen. cbv zeta. apply settle_wf.
    pose proof (socket_send_wf
                  (TextData (JSON_stringify (handshake (businessId sock) (userId sock))))
                  (log_console (console_log "WebSocket connected")
                     (set_socket s (with_readyState OPEN sock) w)) H) as K.
    exact K.
  - destruct (sockets w !! s) as [sock|]; [|exact H].
    destruct (is_open (readyState sock)); [|exact H]. apply ws_onmessage_wf. exact H.
  - destruct (sockets w !! s) as [sock|]; [|exact H].
    destruct (is_closed (readyState sock)); [exact H|]. apply ws_onerror_wf. exact H.
  - destruct (sockets w !! s) as [sock|]; [|exact H].
    destruct (is_closed (readyState sock)); [exact H|]. apply ws_onclose_wf. exact H.
  - destruct (0 <=? ms)%Z; exact H.
  - destruct (List.find _ (timers w)) as [t|]; [|exact H].
    destruct (due t <=? now w)%Z; [|exact H].
    pose proof (clearTimeout_wf id w H) as Hc.
    unfold fireTimer. destruct (action t) as [|b u|f]; [|exact Hc|exact Hc].
    unfold turnEndTimeout. destruct (isConnected (this (clearTimeout id w))); [|exact Hc].
    unfold send. apply socket_send_wf. exact Hc.
  - unfold startRecordingResumed. destruct (micRequests w) as [|k]; [exact H|].
    destruct result as [e|]; [apply startRecordingFailed_wf; exact H|].
    destruct typeSupported; [exact H|]. apply startRecordingFailed_wf. exact H.
  - destruct (recorders w !! recorder); [|exact H].
    unfold ondataavailable. destruct (_ && _); exact H.
  - destruct (blobReads w !! k) as [buffer|]; [|exact H].
    unfold onArrayBuffer. apply resetTurnEndTimer_wf.
    unfold sendAudio. apply socket_send_wf. exact H.
  - unfold resumeDecode. destruct (loops w !! loop) as [[d n|d n|]|]; try exact H.
    destruct ok; [destruct (audioContext (this w)); [exact H|]|]; apply whileQueue_wf; exact H.
  - unfold resumeEnded. destruct (loops w !! loop) as [[d n|d n|]|]; try exact H.
    apply whileQueue_wf. exact H.
Qed.

(** The hypothesis of the two timer theorems holds in every world the
    client can reach. *)
Lemma timers_wf_reachable (es : list Event) (u : U) : timers_wf (run es (initial u)).
Proof.
  assert (forall w : World U, timers_wf w -> timers_wf (run es w)) as K.
  { induction es as [|e es IH]; intros w H; [exact H|].
    apply IH. apply timers_wf_step. exact H. }
  apply K. repeat split; constructor.
Qed.

End Timers.

(** ** Playback *)

Section Playback.

Context {U : Type}.
Variable JSON_parse : string -> option JSValue.
Variable config : VoiceClientConfig U.
Variable connectRejected : U -> U.
Variable recordingRejected : JSError -> U -> U.

#[local] Abbreviation step := (Client.step JSON_parse config connectRejected recordingRejected).
#[local] Abbreviation run := (Client.run JSON_parse config connectRejected recordingRejected).
#[local] Abbreviation arrivals :=
  (Client.arrivals JSON_parse config connectRejected recordingRejected).

Lemma audio_eq (w w' : World U) :
  audio w' = audio w ->
  audioQueue (this w') = audioQueue (this w) /\ isPlaying (this w') = isPlaying (this w)
  /\ audioContext (this w') = audioContext (this w) /\ loops w' = loops w
  /\ playlog w' = playlog w.
Proof. unfold audio. intros H. injection H as -> -> -> -> ->. repeat split. Qed.

Lemma playback_inv_audio (w w' : World U) :
  audio w' = audio w -> playback_inv w -> playback_inv w'.
Proof.
  intros H. apply audio_eq in H. destruct H as (Eq & Ep & Ec & El & Eg).
  intros [Hp Hq Hl Hd | l1 l2 d n Hp Hc Hl H1 H2 Hd | l1 l2 d n Hp Hc Hl H1 H2 Hd].
  - apply inv_idle; congruence.
  - apply (inv_decoding w' l1 l2 d n); congruence.
  - apply (inv_playing w' l1 l2 d n); congruence.
Qed.

Lemma accepted_audio (w w' : World U) :
  audio w' = audio w -> accepted w' = accepted w.
Proof.
  intros H. apply audio_eq in H. destruct H as (Eq & _ & _ & El & Eg).
  unfold accepted. rewrite Eq, El, Eg. reflexivity.
Qed.

(** *** Handlers that leave playback alone *)

Lemma audio_invoke (c : Call) (h : U -> CbResult U) (w : World U) :
  audio (fst (invoke c h w)) = audio w.
Proof.
  pose proof (invoke_keeps c h w) as K. cbv zeta in K.
  destruct K as (Kt & _ & Kl & Kp & _). unfold audio. rewrite Kt, Kl, Kp. reflexivity.
Qed.

Lemma audio_socket_send (p : Payload) (w : World U) : audio (socket_send p w) = audio w.
Proof.
  unfold socket_send. destruct (ws (this w)) as [s|]; [|reflexivity].
  destruct (sockets w !! s) as [sock|]; [|reflexivity].
  destruct (is_open (readyState sock)); reflexivity.
Qed.

Lemma audio_afterPlayAudioQueue (data : ArrayBuffer) (w : World U) :
  audio (afterPlayAudioQueue config data w) = audio w.
Proof.
  unfold afterPlayAudioQueue. destruct (onAudioReceived config) as [h|]; [|reflexivity].
  pose proof (audio_invoke (CallAudioReceived data) (h data) w) as K.
  destruct (invoke (CallAudioReceived data) (h data) w) as [w' [e|]]; exact K.
Qed.

Lemma audio_handleMessage (message : JSValue) (w : World U) :
  audio (fst (handleMessage config message w)) = audio w.
Proof.
  unfold handleMessage.
  destruct (get_prop message "type") as [type|]; [|reflexivity].
  switch_cases type;
    try rewrite audio_invoke; try reflexivity.
  unfold send. cbn [fst]. rewrite audio_socket_send. reflexivity.
Qed.

Lemma audio_text_frame (data : string) (w : World U) :
  audio (fst (ws_onmessage JSON_parse config (TextFrame data) w)) = audio w.
Proof.
  unfold ws_onmessage, tryHandle. destruct (JSON_parse data) as [message|]; [|reflexivity].
  pose proof (audio_handleMessage message w) as K.
  destruct (handleMessage config message w) as [w' [e|]]; exact K.
Qed.

Lemma audio_settle (s : nat) (p : PromiseState) (w : World U) : audio (settle s p w) = audio w.
Proof.
  unfold settle. destruct (sockets w !! s) as [sock|]; [|reflexivity].
  destruct (promise sock); reflexivity.
Qed.

Lemma audio_ws_onopen (s : nat) (sock : WebSocket) (w : World U) :
  audio (ws_onopen s sock w) = audio w.
Proof.
  unfold ws_onopen. cbv zeta. rewrite audio_settle.
  change (audio (set_reconnectAttempts 0 (set_isConnected true ?x))) with (audio x).
  unfold send. rewrite audio_socket_send. reflexivity.
Qed.

Lemma audio_ws_onerror (s : nat) (sock : WebSocket) (w : World U) :
  audio (ws_onerror config connectRejected s sock w) = audio w.
Proof.
  unfold ws_onerror.
  set (w0 := log_console (console_error "WebSocket error:") w).
  assert (audio w0 = audio w) as E0 by reflexivity.
  assert (forall r : World U * option JSError,
             audio (fst r) = audio w ->
             audio (let '(w1, thrown) := r in
                    match thrown with
                    | Some _ => w1
                    | None =>
                        match promise sock with
                        | Pending =>
                            let w2 := settle s Rejected w1 in
                            match origin sock with
                            | ByCaller => set_ui (connectRejected (ui w2)) w2
                            | ByReconnect => log_console (console_error "[object Event]") w2
                            end
                        | _ => w1
                        end
                    end) = audio w) as K.
  { intros [w1 [e|]] H1; cbn [fst] in H1; [exact H1|].
    destruct (promise sock); try exact H1.
    cbv zeta.
    destruct (origin sock);
      [ change (audio (set_ui ?v ?x)) with (audio x)
      | change (audio (log_console ?v ?x)) with (audio x) ];
      rewrite audio_settle; exact H1. }
  apply K. destruct (onError config) as [h|]; [|exact E0].
  rewrite audio_invoke. exact E0.
Qed.

Lemma audio_ws_onclose (sock : WebSocket) (w : World U) :
  audio (ws_onclose config sock w) = audio w.
Proof.
  unfold ws_onclose. cbv zeta.
  set (w0 := set_isConnected false (log_console (console_log "WebSocket disconnected") w)).
  set (r := match onDisconnected config with
            | Some h => invoke CallDisconnected h w0
            | None => (w0, None)
            end).
  assert (audio (fst r) = audio w) as Hr.
  { unfold r. destruct (onDisconnected config) as [h|]; [|reflexivity].
    rewrite audio_invoke. reflexivity. }
  destruct r as [w1 [e|]]; cbn [fst] in Hr; [exact Hr|].
  destruct (Nat.ltb _ _); exact Hr.
Qed.

Lemma audio_startRecordingFailed (e : JSError) (w : World U) :
  audio (startRecordingFailed config recordingRejected e w) = audio w.
Proof.
  unfold startRecordingFailed.
  set (w0 := log_console (console_error "Error starting recording:") w).
  assert (audio w0 = audio w) as E0 by reflexivity.
  assert (forall r : World U * option JSError,
             audio (fst r) = audio w ->
             audio (let '(w1, thrown) := r in
                    set_ui (recordingRejected (default e thrown) (ui w1)) w1) = audio w) as K.
  { intros [w1 thrown] H1. exact H1. }
  apply K. destruct (onError config) as [h|]; [|exact E0].
  rewrite audio_invoke. exact E0.
Qed.

Lemma audio_stopRecording (w : World U) : audio (stopRecording w) = audio w.
Proof.
  unfold stopRecording.
  set (w0 := match turnEndTimer (this w) with
             | Some t => set_turnEndTimer None (clearTimeout t w)
             | None => w
             end).
  assert (audio w0 = audio w) as E0 by (unfold w0; destruct (turnEndTimer (this w)); reflexivity).
  destruct (mediaRecorder (this w0)) as [r|]; [|exact E0].
  destruct (recorders w0 !! r) as [[|]|]; exact E0.
Qed.

Lemma audio_resetTurnEndTimer (w : World U) : audio (resetTurnEndTimer w) = audio w.
Proof. unfold resetTurnEndTimer. destruct (turnEndTimer (this w)); reflexivity. Qed.

Lemma audio_fireTimer (t : Timer U) (w : World U) : audio (fireTimer t w) = audio w.
Proof.
  unfold fireTimer. destruct (action t) as [|b u|f]; [|reflexivity|reflexivity].
  unfold turnEndTimeout. destruct (isConnected (this w)); [|reflexivity].
  unfold send. rewrite audio_socket_send. reflexivity.
Qed.

(** Every event that is neither a binary frame nor a completion of the
    decoder or the device, and is not [clearAudioQueue()] or
    [disconnect()], leaves playback as it is. *)
Lemma audio_other_events (e : Event) (w : World U) :
  undisturbed e = true ->
  match e with
  | WsMessage _ (BinaryFrame _) | DecodeDone _ _ | SourceEnded _ => False
  | _ => True
  end ->
  audio (step e w) = audio w.
Proof.
  intros Hu He. destruct e; try discriminate Hu; try contradiction He; cbn [Client.step].
  - reflexivity.
  - unfold startRecording. destruct hasMediaDevices; [reflexivity|].
    apply audio_startRecordingFailed.
  - apply audio_stopRecording.
  - destruct (sockets w !! s) as [sock|]; [|reflexivity].
    destruct (readyState sock); try reflexivity. rewrite audio_ws_onopen. reflexivity.
  - destruct f as [data|data]; [contradiction|].
    destruct (sockets w !! s) as [sock|]; [|reflexivity].
    destruct (is_open (readyState sock)); [|reflexivity]. apply audio_text_frame.
  - destruct (sockets w !! s) as [sock|]; [|reflexivity].
    destruct (is_closed (readyState sock)); [reflexivity|].
    rewrite audio_ws_onerror. reflexivity.
  - destruct (sockets w !! s) as [sock|]; [|reflexivity].
    destruct (is_closed (readyState sock)); [reflexivity|].
    rewrite audio_ws_onclose. reflexivity.
  - destruct (0 <=? ms)%Z; reflexivity.
  - destruct (List.find _ (timers w)) as [t|]; [|reflexivity].
    destruct (due t <=? now w)%Z; [|reflexivity]. rewrite audio_fireTimer. reflexivity.
  - unfold startRecordingResumed. destruct (micRequests w) as [|k]; [reflexivity|].
    destruct result as [e|]; [rewrite audio_startRecordingFailed; reflexivity|].
    destruct typeSupported; [reflexivity|]. rewrite audio_startRecordingFailed. reflexivity.
  - destruct (recorders w !! recorder); [|reflexivity].
    unfold ondataavailable. destruct (_ && _); reflexivity.
  - destruct (blobReads w !! k) as [buffer|]; [|reflexivity].
    unfold onArrayBuffer. rewrite audio_resetTurnEndTimer.
    unfold sendAudio. rewrite audio_socket_send. reflexivity.
Qed.

(** *** Lists of activations *)

Lemma finished_inactive (ls : list Loop) :
  all_finished ls -> List.filter is_active ls = [] /\ decoding ls = [].
Proof.
  induction 1 as [|l ls -> _ [IH1 IH2]]; [split; reflexivity|].
  cbn. rewrite IH1. split; [reflexivity | exact IH2].
Qed.

Lemma finished_lookup (ls : list Loop) (i : nat) (l : Loop) :
  all_finished ls -> ls !! i = Some l -> l = Finished.
Proof.
  intros H Hl. unfold all_finished in H. rewrite List.Forall_forall in H.
  apply H. apply list_elem_of_In. apply list_elem_of_lookup. exists i. exact Hl.
Qed.

(** In a list with one busy activation, a busy entry is that one. *)
Lemma lookup_busy (l1 l2 : list Loop) (x y : Loop) (i : nat) :
  all_finished l1 -> all_finished l2 ->
  (l1 ++ x :: l2)%list !! i = Some y -> is_active y = true ->
  i = length l1 /\ y = x.
Proof.
  intros H1 H2 Hl Hy.
  destruct (Nat.lt_trichotomy i (length l1)) as [Hlt|[->|Hgt]].
  - rewrite lookup_app_l in Hl by exact Hlt.
    rewrite (finished_lookup l1 i y H1 Hl) in Hy. discriminate.
  - rewrite list_lookup_middle in Hl by reflexivity. injection Hl as <-. auto.
  - rewrite lookup_app_r in Hl by lia.
    destruct (i - length l1) as [|j] eqn:E; [lia|]. cbn in Hl.
    rewrite (finished_lookup l2 j y H2 Hl) in Hy. discriminate.
Qed.

Lemma insert_middle (l1 l2 : list Loop) (x y : Loop) :
  <[length l1 := y]> (l1 ++ x :: l2)%list = (l1 ++ y :: l2)%list.
Proof.
  rewrite insert_app_r_alt by lia. rewrite Nat.sub_diag. reflexivity.
Qed.

Lemma active_middle (l1 l2 : list Loop) (x : Loop) :
  all_finished l1 -> all_finished l2 ->
  length (List.filter is_active (l1 ++ x :: l2)%list) <= 1.
Proof.
  intros H1 H2. rewrite List.filter_app. cbn.
  destruct (finished_inactive l1 H1) as [-> _].
  destruct (finished_inactive l2 H2) as [E2 _].
  destruct (is_active x); cbn; rewrite E2; cbn; lia.
Qed.

Lemma decoding_middle (l1 l2 : list Loop) (x : Loop) :
  all_finished l1 -> all_finished l2 ->
  decoding (l1 ++ x :: l2)%list = decoding [x].
Proof.
  intros H1 H2. unfold decoding. rewrite flat_map_app. cbn [flat_map].
  destruct (finished_inactive l1 H1) as [_ E1].
  destruct (finished_inactive l2 H2) as [_ E2].
  unfold decoding in E1, E2. rewrite E1, E2. reflexivity.
Qed.

(** *** The device *)

Lemma buffer_eqb_refl (d : ArrayBuffer) : buffer_eqb d d = true.
Proof.
  induction d as [|x d IH]; [reflexivity|]. cbn [buffer_eqb].
  rewrite IH, (Byte.byte_dec_lb (eq_refl x)). reflexivity.
Qed.

Lemma device_snoc (log : list PlayEvent) (e : PlayEvent) :
  device (log ++ [e])%list = device_step (device log) e.
Proof. unfold device. rewrite fold_left_app. reflexivity. Qed.

Lemma started_snoc (log : list PlayEvent) (e : PlayEvent) :
  started (log ++ [e])%list
  = (started log ++ match e with PlayStart _ d => [d] | PlayEnd _ _ => [] end)%list.
Proof. unfold started. rewrite flat_map_app. cbn. rewrite app_nil_r. reflexivity. Qed.

(** *** The loop *)

Lemma whileQueue_cons (i : nat) (n d : ArrayBuffer) (q : list ArrayBuffer) (w : World U) :
  audioContext (this w) <> None ->
  whileQueue config i n (d :: q) w = set_loop i (AwaitDecode d n) (set_audioQueue q w).
Proof.
  intros Hc. cbn [whileQueue].
  change (audioContext (this (set_audioQueue q w))) with (audioContext (this w)).
  destruct (audioContext (this w)); [reflexivity | congruence].
Qed.

(** From the test of the [while] to the next [await], or to the end. *)
Lemma whileQueue_busy (l1 l2 : list Loop) (cur : Loop) (n : ArrayBuffer) (w : World U) :
  busy_shape w l1 l2 cur ->
  let w' := whileQueue config (length l1) n (audioQueue (this w)) w in
  playlog w' = playlog w
  /\ match audioQueue (this w) with
     | [] => isPlaying (this w') = false /\ audioQueue (this w') = []
             /\ all_finished (loops w')
     | d :: q => busy_shape w' l1 l2 (AwaitDecode d n) /\ audioQueue (this w') = q
     end.
Proof.
  intros (Hp & Hc & Hl & H1 & H2). cbv zeta.
  destruct (audioQueue (this w)) as [|d q] eqn:Eq.
  - cbn [whileQueue]. unfold finishLoop.
    set (w1 := set_isPlaying false (set_loop (length l1) Finished w)).
    pose proof (audio_afterPlayAudioQueue n w1) as K. apply audio_eq in K.
    destruct K as (Kq & Kp & _ & Kl & Kg).
    rewrite Kg, Kp, Kq, Kl. split; [reflexivity|]. split; [reflexivity|].
    split; [exact Eq|].
    unfold w1. cbn [loops set_isPlaying with_this set_loop set_loops].
    rewrite Hl, insert_middle. apply List.Forall_app. split; [exact H1|].
    constructor; [reflexivity | exact H2].
  - rewrite whileQueue_cons by exact Hc. split; [reflexivity|]. split; [|reflexivity].
    split; [exact Hp|]. split; [exact Hc|]. split; [|split; assumption].
    cbn [loops set_loop set_loops set_audioQueue with_this]. rewrite Hl. apply insert_middle.
Qed.

Lemma busy_inv_decoding (w : World U) (l1 l2 : list Loop) (d n : ArrayBuffer) :
  busy_shape w l1 l2 (AwaitDecode d n) -> device (playlog w) = quiet -> playback_inv w.
Proof. intros (Hp & Hc & Hl & H1 & H2) Hd. exact (inv_decoding w l1 l2 d n Hp Hc Hl H1 H2 Hd). Qed.

(** The loop goes on after a chunk is done with (played, or dropped). *)
Lemma whileQueue_inv (l1 l2 : list Loop) (cur : Loop) (n : ArrayBuffer) (w : World U) :
  busy_shape w l1 l2 cur ->
  device (playlog w) = quiet ->
  let w' := whileQueue config (length l1) n (audioQueue (this w)) w in
  playback_inv w'
  /\ accepted w' = (started (playlog w) ++ audioQueue (this w))%list.
Proof.
  intros Hb Hd. cbv zeta.
  destruct (whileQueue_busy l1 l2 cur n w Hb) as (Eg & Hcase). cbv zeta in Eg, Hcase.
  set (w' := whileQueue config (length l1) n (audioQueue (this w)) w) in *.
  unfold accepted. rewrite Eg.
  destruct (audioQueue (this w)) as [|d q].
  - destruct Hcase as (Hp & Hq & Hl). split.
    + apply inv_idle; [exact Hp | exact Hq | exact Hl | rewrite Eg; exact Hd].
    + rewrite Hq. destruct (finished_inactive _ Hl) as [_ ->]. reflexivity.
  - destruct Hcase as (Hb' & Hq). split.
    + apply (busy_inv_decoding w' l1 l2 d n Hb'). rewrite Eg. exact Hd.
    + destruct Hb' as (_ & _ & Hl & H1 & H2).
      rewrite Hl, (decoding_middle l1 l2 _ H1 H2), Hq. reflexivity.
Qed.

(** *** An audio chunk arrives *)

Lemma binary_frame_inv (d : ArrayBuffer) (w : World U) :
  playback_inv w ->
  let w' := fst (ws_onmessage JSON_parse config (BinaryFrame d) w) in
  playback_inv w'
  /\ accepted w' = (accepted w ++ [d])%list
  /\ (isPlaying (this w) = true -> loops w' = loops w).
Proof.
  intros Hinv. cbv zeta. cbn [ws_onmessage fst]. unfold playAudioQueue.
  set (w0 := set_audioQueue (audioQueue (this w) ++ [d])%list w).
  change (isPlaying (this w0)) with (isPlaying (this w)).
  destruct Hinv as [Hp Hq Hl Hd | l1 l2 c n Hp Hc Hl H1 H2 Hd | l1 l2 c n Hp Hc Hl H1 H2 Hd].
  - rewrite Hp. change (audioQueue (this w0)) with (audioQueue (this w) ++ [d])%list.
    rewrite Hq. cbn [app length Nat.eqb orb].
    set (w1 := match audioContext (this (set_isPlaying true w0)) with
               | Some _ => set_isPlaying true w0
               | None => set_contexts (S (contexts (set_isPlaying true w0)))
                           (set_audioContext (Some (contexts (set_isPlaying true w0)))
                              (set_isPlaying true w0))
               end).
    assert (isPlaying (this w1) = true /\ audioContext (this w1) <> None
            /\ loops w1 = loops w /\ playlog w1 = playlog w
            /\ audioQueue (this w1) = [d]) as (Ep1 & Ec1 & El1 & Eg1 & Eq1).
    { unfold w1. change (audioContext (this (set_isPlaying true w0)))
        with (audioContext (this w)).
      destruct (audioContext (this w)) eqn:Ec; cbn; rewrite ?Ec, ?Hq; repeat split; discriminate. }
    set (w2 := set_loops (loops w1 ++ [Finished])%list w1).
    assert (busy_shape w2 (loops w) [] Finished) as Hb.
    { split; [exact Ep1|]. split; [exact Ec1|]. split; [|split; [exact Hl | constructor]].
      unfold w2. cbn [loops set_loops]. rewrite El1. reflexivity. }
    assert (device (playlog w2) = quiet) as Hd2 by (change (playlog w2) with (playlog w1); congruence).
    pose proof (whileQueue_inv (loops w) [] Finished d w2 Hb Hd2) as K. cbv zeta in K.
    change (audioQueue (this w2)) with (audioQueue (this w1)) in K.
    rewrite El1.
    destruct K as (Kinv & Kacc). split; [exact Kinv|]. split; [|congruence].
    rewrite Kacc. change (playlog w2) with (playlog w1). rewrite Eg1, Eq1.
    unfold accepted. rewrite Hq. destruct (finished_inactive _ Hl) as [_ ->].
    rewrite !app_nil_r. reflexivity.
  - rewrite Hp. cbn [orb].
    pose proof (audio_afterPlayAudioQueue d w0) as K. apply audio_eq in K.
    destruct K as (Kq & Kp & Kc & Kl & Kg).
    change (audioQueue (this w0)) with (audioQueue (this w) ++ [d])%list in Kq.
    change (isPlaying (this w0)) with (isPlaying (this w)) in Kp.
    change (audioContext (this w0)) with (audioContext (this w)) in Kc.
    change (loops w0) with (loops w) in Kl.
    change (playlog w0) with (playlog w) in Kg.
    split; [|split].
    + apply (inv_decoding _ l1 l2 c n); congruence.
    + unfold accepted. rewrite Kq, Kl, Kg. cbn. rewrite !app_assoc. reflexivity.
    + intros _. exact Kl.
  - rewrite Hp. cbn [orb].
    pose proof (audio_afterPlayAudioQueue d w0) as K. apply audio_eq in K.
    destruct K as (Kq & Kp & Kc & Kl & Kg).
    change (audioQueue (this w0)) with (audioQueue (this w) ++ [d])%list in Kq.
    change (isPlaying (this w0)) with (isPlaying (this w)) in Kp.
    change (audioContext (this w0)) with (audioContext (this w)) in Kc.
    change (loops w0) with (loops w) in Kl.
    change (playlog w0) with (playlog w) in Kg.
    split; [|split].
    + apply (inv_playing _ l1 l2 c n); congruence.
    + unfold accepted. rewrite Kq, Kl, Kg. cbn. rewrite !app_assoc. reflexivity.
    + intros _. exact Kl.
Qed.

(** *** The decoder settles, the source ends *)

Lemma decode_inv (i : nat) (ok : bool) (w : World U) :
  playback_inv w ->
  let w' := resumeDecode config i ok w in
  playback_inv w'
  /\ sublist (accepted w') (accepted w)
  /\ (ok = true -> accepted w' = accepted w).
Proof.
  intros Hinv. cbv zeta. unfold resumeDecode.
  destruct (loops w !! i) as [[d n|d n|]|] eqn:Ei; try (split; [exact Hinv | split; reflexivity]).
  destruct Hinv as [Hp Hq Hl Hd | l1 l2 c m Hp Hc Hl H1 H2 Hd | l1 l2 c m Hp Hc Hl H1 H2 Hd].
  - pose proof (finished_lookup _ _ _ Hl Ei). discriminate.
  - rewrite Hl in Ei. destruct (lookup_busy l1 l2 _ _ i H1 H2 Ei eq_refl) as [-> E].
    injection E as -> ->.
    assert (accepted w = (started (playlog w) ++ c :: audioQueue (this w))%list) as Ea.
    { unfold accepted. rewrite Hl, (decoding_middle l1 l2 _ H1 H2). reflexivity. }
    destruct ok.
    + destruct (audioContext (this w)) eqn:Ec; [|contradiction].
      set (w' := set_loop (length l1) (AwaitEnded c m) (log_play (PlayStart (length l1) c) w)).
      assert (loops w' = (l1 ++ AwaitEnded c m :: l2)%list) as El'.
      { unfold w'. cbn [loops set_loop set_loops log_play]. rewrite Hl. apply insert_middle. }
      assert (accepted w' = accepted w) as Ea'.
      { rewrite Ea. unfold accepted. rewrite El', (decoding_middle l1 l2 _ H1 H2).
        unfold w'. cbn [playlog set_loop set_loops log_play this audioQueue].
        rewrite started_snoc, <- app_assoc. reflexivity. }
      split; [|split; [rewrite Ea'; reflexivity | intros _; exact Ea']].
      apply (inv_playing w' l1 l2 c m); try assumption.
      * unfold w'. cbn. rewrite Ec. discriminate.
      * unfold w'. cbn [playlog set_loop set_loops log_play].
        rewrite device_snoc, Hd. reflexivity.
    + set (w0 := log_console (console_error "Error playing audio chunk:") w).
      assert (busy_shape w0 l1 l2 (AwaitDecode c m)) as Hb by (repeat split; assumption).
      destruct (whileQueue_inv l1 l2 _ m w0 Hb Hd) as (Kinv & Kacc).
      cbv zeta in Kinv, Kacc. split; [exact Kinv|]. split; [|discriminate].
      change (audioQueue (this w)) with (audioQueue (this w0)).
      rewrite Kacc, Ea. apply sublist_app; [reflexivity|]. apply sublist_cons. reflexivity.
  - rewrite Hl in Ei. destruct (lookup_busy l1 l2 _ _ i H1 H2 Ei eq_refl) as [_ E].
    discriminate.
Qed.

Lemma ended_inv (i : nat) (w : World U) :
  playback_inv w ->
  let w' := resumeEnded config i w in
  playback_inv w' /\ accepted w' = accepted w.
Proof.
  intros Hinv. cbv zeta. unfold resumeEnded.
  destruct (loops w !! i) as [[d n|d n|]|] eqn:Ei; try (split; [exact Hinv | reflexivity]).
  destruct Hinv as [Hp Hq Hl Hd | l1 l2 c m Hp Hc Hl H1 H2 Hd | l1 l2 c m Hp Hc Hl H1 H2 Hd].
  - pose proof (finished_lookup _ _ _ Hl Ei). discriminate.
  - rewrite Hl in Ei. destruct (lookup_busy l1 l2 _ _ i H1 H2 Ei eq_refl) as [_ E].
    discriminate.
  - rewrite Hl in Ei. destruct (lookup_busy l1 l2 _ _ i H1 H2 Ei eq_refl) as [-> E].
    injection E as -> ->.
    set (w0 := log_play (PlayEnd (length l1) c) w).
    assert (busy_shape w0 l1 l2 (AwaitEnded c m)) as Hb by (repeat split; assumption).
    assert (device (playlog w0) = quiet) as Hd0.
    { unfold w0. cbn [playlog log_play]. rewrite device_snoc, Hd. cbn [device_step].
      rewrite Nat.eqb_refl, buffer_eqb_refl. reflexivity. }
    destruct (whileQueue_inv l1 l2 _ m w0 Hb Hd0) as (Kinv & Kacc).
    cbv zeta in Kinv, Kacc. split; [exact Kinv|].
    change (audioQueue (this w)) with (audioQueue (this w0)). rewrite Kacc.
    unfold accepted. rewrite Hl, (decoding_middle l1 l2 _ H1 H2).
    unfold w0. cbn [playlog log_play this audioQueue]. rewrite started_snoc, app_nil_r.
    reflexivity.
Qed.

(** *** One event, then a run *)

Lemma step_inv (e : Event) (w : World U) :
  undisturbed e = true ->
  playback_inv w ->
  playback_inv (step e w)
  /\ sublist (accepted (step e w)) (accepted w ++ arrival e w)%list
  /\ (decodes e = true -> accepted (step e w) = (accepted w ++ arrival e w)%list).
Proof.
  intros Hu Hinv.
  assert (forall w' : World U, audio w' = audio w ->
          playback_inv w'
          /\ sublist (accepted w') (accepted w ++ [])%list
          /\ (decodes e = true -> accepted w' = (accepted w ++ [])%list)) as Keep.
  { intros w' Ha. rewrite app_nil_r, (accepted_audio _ _ Ha).
    split; [exact (playback_inv_audio _ _ Ha Hinv) | split; reflexivity]. }
  destruct e; try discriminate Hu;
    try (apply Keep; apply audio_other_events; [reflexivity | exact I]).
  - destruct f as [d|data]; cbn [Client.step arrival].
    + destruct (sockets w !! s) as [sock|]; [|apply Keep; reflexivity].
      destruct (is_open (readyState sock)); [|apply Keep; reflexivity].
      destruct (binary_frame_inv d w Hinv) as (K1 & K2 & _). cbv zeta in K1, K2.
      split; [exact K1|]. rewrite K2. split; reflexivity.
    + apply Keep.
      destruct (sockets w !! s) as [sock|]; [|reflexivity].
      destruct (is_open (readyState sock)); [|reflexivity].
      apply audio_text_frame.
  - cbn [Client.step arrival]. rewrite app_nil_r.
    destruct (decode_inv loop ok w Hinv) as (K1 & K2 & K3). cbv zeta in K1, K2, K3.
    split; [exact K1|]. split; [exact K2|].
    destruct ok; [intros _; apply K3; reflexivity | discriminate].
  - cbn [Client.step arrival]. rewrite app_nil_r.
    destruct (ended_inv loop w Hinv) as (K1 & K2). cbv zeta in K1, K2.
    split; [exact K1|]. rewrite K2. split; reflexivity.
Qed.

Lemma run_inv (es : list Event) :
  forall w : World U,
    Forall (fun e => undisturbed e = true) es ->
    playback_inv w ->
    playback_inv (run es w)
    /\ sublist (accepted (run es w)) (accepted w ++ arrivals es w)%list
    /\ (Forall (fun e => decodes e = true) es ->
        accepted (run es w) = (accepted w ++ arrivals es w)%list).
Proof.
  induction es as [|e es IH]; intros w Hes Hinv.
  - cbn. rewrite app_nil_r. split; [exact Hinv | split; reflexivity].
  - apply List.Forall_cons_iff in Hes. destruct Hes as [Hu Hes].
    destruct (step_inv e w Hu Hinv) as (S1 & S2 & S3).
    destruct (IH (step e w) Hes S1) as (R1 & R2 & R3).
    change (run (e :: es) w) with (run es (step e w)).
    cbn [Client.arrivals]. rewrite app_assoc.
    split; [exact R1|]. split.
    + etransitivity; [exact R2|]. apply sublist_app; [exact S2 | reflexivity].
    + intros Hd. apply List.Forall_cons_iff in Hd. destruct Hd as [Hd1 Hd2].
      rewrite (R3 Hd2), (S3 Hd1). reflexivity.
Qed.

(** *** Playing to completion *)

Lemma ended_round (l1 l2 : list Loop) (d n : ArrayBuffer) (w : World U) :
  busy_shape w l1 l2 (AwaitEnded d n) ->
  let w2 := step (SourceEnded (length l1)) w in
  playlog w2 = (playlog w ++ [PlayEnd (length l1) d])%list
  /\ match audioQueue (this w) with
     | [] => isPlaying (this w2) = false /\ audioQueue (this w2) = []
             /\ all_finished (loops w2)
     | d' :: q' => busy_shape w2 l1 l2 (AwaitDecode d' n) /\ audioQueue (this w2) = q'
     end.
Proof.
  intros Hb. cbv zeta. cbn [Client.step]. unfold resumeEnded.
  destruct Hb as (Hp & Hc & Hl & H1 & H2).
  rewrite Hl, list_lookup_middle by reflexivity.
  set (w0 := log_play (PlayEnd (length l1) d) w).
  assert (busy_shape w0 l1 l2 (AwaitEnded d n)) as Hb0 by (repeat split; assumption).
  exact (whileQueue_busy l1 l2 _ n w0 Hb0).
Qed.

Lemma serve_round (l1 l2 : list Loop) (d n : ArrayBuffer) (w : World U) :
  busy_shape w l1 l2 (AwaitDecode d n) ->
  let w2 := run [DecodeDone (length l1) true; SourceEnded (length l1)] w in
  playlog w2 = (playlog w ++ [PlayStart (length l1) d; PlayEnd (length l1) d])%list
  /\ match audioQueue (this w) with
     | [] => isPlaying (this w2) = false /\ audioQueue (this w2) = []
             /\ all_finished (loops w2)
     | d' :: q' => busy_shape w2 l1 l2 (AwaitDecode d' n) /\ audioQueue (this w2) = q'
     end.
Proof.
  intros (Hp & Hc & Hl & H1 & H2). cbv zeta.
  change (run [DecodeDone (length l1) true; SourceEnded (length l1)] w)
    with (step (SourceEnded (length l1)) (step (DecodeDone (length l1) true) w)).
  assert (step (DecodeDone (length l1) true) w
          = set_loop (length l1) (AwaitEnded d n) (log_play (PlayStart (length l1) d) w)) as ->.
  { cbn [Client.step]. unfold resumeDecode. rewrite Hl, list_lookup_middle by reflexivity.
    destruct (audioContext (this w)); [reflexivity | contradiction]. }
  set (w1 := set_loop (length l1) (AwaitEnded d n) (log_play (PlayStart (length l1) d) w)).
  assert (busy_shape w1 l1 l2 (AwaitEnded d n)) as Hb1.
  { split; [exact Hp|]. split; [exact Hc|]. split; [|split; assumption].
    unfold w1. cbn [loops set_loop set_loops log_play]. rewrite Hl. apply insert_middle. }
  destruct (ended_round l1 l2 d n w1 Hb1) as (Eg & Hcase). cbv zeta in Eg, Hcase.
  split; [|exact Hcase].
  rewrite Eg. unfold w1. cbn [playlog set_loop set_loops log_play].
  rewrite <- app_assoc. reflexivity.
Qed.

Lemma device_round (log : list PlayEvent) (i : nat) (d : ArrayBuffer) :
  device log = quiet ->
  device (log ++ [PlayStart i d; PlayEnd i d])%list = quiet.
Proof.
  intros H. change [PlayStart i d; PlayEnd i d] with ([PlayStart i d] ++ [PlayEnd i d])%list.
  rewrite app_assoc, !device_snoc, H. cbn [device_step].
  rewrite Nat.eqb_refl, buffer_eqb_refl. reflexivity.
Qed.

Lemma started_round (log : list PlayEvent) (i : nat) (d : ArrayBuffer) :
  started (log ++ [PlayStart i d; PlayEnd i d])%list = (started log ++ [d])%list.
Proof. unfold started. rewrite flat_map_app. reflexivity. Qed.

Lemma completion_serve (i k : nat) : Forall (fun e => completion e = true) (serve i k).
Proof. induction k as [|k IH]; cbn; repeat constructor. exact IH. Qed.

(** The decoder and the device serving the busy activation chunk after
    chunk, the chunk in hand and the whole queue are played, in order,
    and the loop returns. *)
Lemma serve_decoding (q : list ArrayBuffer) :
  forall (w : World U) (l1 l2 : list Loop) (d n : ArrayBuffer),
    busy_shape w l1 l2 (AwaitDecode d n) ->
    device (playlog w) = quiet ->
    audioQueue (this w) = q ->
    let w' := run (serve (length l1) (S (length q))) w in
    isPlaying (this w') = false /\ device (playlog w') = quiet
    /\ started (playlog w') = (started (playlog w) ++ d :: q)%list.
Proof.
  induction q as [|d' q IH]; intros w l1 l2 d n Hb Hd Hq; cbv zeta.
  - destruct (serve_round l1 l2 d n w Hb) as (Eg & Hcase). cbv zeta in Eg, Hcase.
    rewrite Hq in Hcase. destruct Hcase as (Hp & _).
    change (serve (length l1) (S (length (@nil ArrayBuffer))))
      with [DecodeDone (length l1) true; SourceEnded (length l1)].
    split; [exact Hp|]. rewrite Eg. split; [apply device_round; exact Hd | apply started_round].
  - destruct (serve_round l1 l2 d n w Hb) as (Eg & Hcase). cbv zeta in Eg, Hcase.
    rewrite Hq in Hcase. destruct Hcase as (Hb' & Hq').
    change (serve (length l1) (S (length (d' :: q))))
      with ([DecodeDone (length l1) true; SourceEnded (length l1)]
              ++ serve (length l1) (S (length q)))%list.
    unfold Client.run. rewrite fold_left_app.
    fold (run [DecodeDone (length l1) true; SourceEnded (length l1)] w).
    set (w2 := run [DecodeDone (length l1) true; SourceEnded (length l1)] w) in *.
    fold (run (serve (length l1) (S (length q))) w2).
    assert (device (playlog w2) = quiet) as Hd2 by (rewrite Eg; apply device_round; exact Hd).
    destruct (IH w2 l1 l2 d' n Hb' Hd2 Hq') as (I1 & I2 & I3). cbv zeta in I1, I2, I3.
    split; [exact I1|]. split; [exact I2|].
    rewrite I3, Eg, started_round, <- app_assoc. reflexivity.
Qed.

(** Whatever has been accepted gets played, if the decoder and the device
    do their part. *)
Lemma playback_completes (w : World U) :
  playback_inv w ->
  exists es',
    Forall (fun e => completion e = true) es'
    /\ isPlaying (this (run es' w)) = false
    /\ device (playlog (run es' w)) = quiet
    /\ started (playlog (run es' w)) = accepted w.
Proof.
  intros [Hp Hq Hl Hd | l1 l2 d n Hp Hc Hl H1 H2 Hd | l1 l2 d n Hp Hc Hl H1 H2 Hd].
  - exists []. split; [constructor|]. split; [exact Hp|]. split; [exact Hd|].
    cbn. unfold accepted. rewrite Hq. destruct (finished_inactive _ Hl) as [_ ->].
    rewrite !app_nil_r. reflexivity.
  - exists (serve (length l1) (S (length (audioQueue (this w))))).
    split; [apply completion_serve|].
    assert (busy_shape w l1 l2 (AwaitDecode d n)) as Hb by (repeat split; assumption).
    destruct (serve_decoding _ w l1 l2 d n Hb Hd eq_refl) as (I1 & I2 & I3).
    cbv zeta in I1, I2, I3. split; [exact I1|]. split; [exact I2|].
    rewrite I3. unfold accepted. rewrite Hl, (decoding_middle l1 l2 _ H1 H2). reflexivity.
  - assert (busy_shape w l1 l2 (AwaitEnded d n)) as Hb by (repeat split; assumption).
    destruct (ended_round l1 l2 d n w Hb) as (Eg & Hcase). cbv zeta in Eg, Hcase.
    set (w2 := step (SourceEnded (length l1)) w) in *.
    assert (device (playlog w2) = quiet) as Hd2.
    { rewrite Eg, device_snoc, Hd. cbn [device_step].
      rewrite Nat.eqb_refl, buffer_eqb_refl. reflexivity. }
    assert (started (playlog w2) = started (playlog w)) as Es2.
    { rewrite Eg, started_snoc. apply app_nil_r. }
    assert (accepted w = (started (playlog w) ++ audioQueue (this w))%list) as Ea.
    { unfold accepted. rewrite Hl, (decoding_middle l1 l2 _ H1 H2). reflexivity. }
    destruct (audioQueue (this w)) as [|d' q'] eqn:Eq.
    + destruct Hcase as (Hp2 & _). exists [SourceEnded (length l1)].
      split; [repeat constructor|]. change (run [SourceEnded (length l1)] w) with w2.
      split; [exact Hp2|]. split; [exact Hd2|]. rewrite Es2, Ea, app_nil_r. reflexivity.
    + destruct Hcase as (Hb2 & Hq2).
      exists (SourceEnded (length l1) :: serve (length l1) (S (length q'))).
      split; [constructor; [reflexivity | apply completion_serve]|].
      change (run (SourceEnded (length l1) :: serve (length l1) (S (length q'))) w)
        with (run (serve (length l1) (S (length q'))) w2).
      destruct (serve_decoding q' w2 l1 l2 d' n Hb2 Hd2 Hq2) as (I1 & I2 & I3).
      cbv zeta in I1, I2, I3. split; [exact I1|]. split; [exact I2|].
      rewrite I3, Es2, Ea. reflexivity.
Qed.

Lemma initial_inv (u : U) : playback_inv (initial u).
Proof. apply inv_idle; try reflexivity. constructor. Qed.

Lemma playback_inv_device (w : World U) :
  playback_inv w -> device (playlog w) <> overlapped /\ active_loops w <= 1.
Proof.
  intros [Hp Hq Hl Hd | l1 l2 d n Hp Hc Hl H1 H2 Hd | l1 l2 d n Hp Hc Hl H1 H2 Hd];
    (split; [rewrite Hd; discriminate|]); unfold active_loops.
  - destruct (finished_inactive _ Hl) as [-> _]. cbn. lia.
  - rewrite Hl. apply active_middle; assumption.
  - rewrite Hl. apply active_middle; assumption.
Qed.

(** An enqueue while a loop is running starts no activation. *)
Lemma enqueue_while_playing (s : nat) (d : ArrayBuffer) (w : World U) :
  isPlaying (this w) = true ->
  loops (step (WsMessage s (BinaryFrame d)) w) = loops w.
Proof.
  intros Hp. cbn [Client.step].
  destruct (sockets w !! s) as [sock|]; [|reflexivity].
  destruct (is_open (readyState sock)); [|reflexivity].
  cbn [ws_onmessage fst]. unfold playAudioQueue.
  change (isPlaying (this (set_audioQueue (audioQueue (this w) ++ [d])%list w)))
    with (isPlaying (this w)).
  rewrite Hp. cbn [orb].
  pose proof (audio_afterPlayAudioQueue d
                (set_audioQueue (audioQueue (this w) ++ [d])%list w)) as K.
  apply audio_eq in K. destruct K as (_ & _ & _ & Kl & _). exact Kl.
Qed.

(** C1: along every run in which [clearAudioQueue()] and [disconnect()]
    are not called, whatever else happens: the device never has two
    sources sounding (each chunk is played to its end before the next is
    started), at most one activation of the playback loop is alive, and
    the chunks played, being decoded and queued are, in this order, the
    chunks that arrived, in their order of arrival, less those whose
    decoding failed -- all of them when no decoding fails.  A chunk that
    arrives while [isPlaying] is set starts no activation.  And whatever
    has been accepted is played to completion once the decoder and the
    device have served the loop. *)
Theorem playback_is_serial_and_in_order (es : list Event) (u : U) :
  Forall (fun e => undisturbed e = true) es ->
  let w := run es (initial u) in
  device (playlog w) <> overlapped
  /\ active_loops w <= 1
  /\ sublist (accepted w) (arrivals es (initial u))
  /\ (Forall (fun e => decodes e = true) es -> accepted w = arrivals es (initial u))
  /\ (forall s d, isPlaying (this w) = true ->
        loops (step (WsMessage s (BinaryFrame d)) w) = loops w)
  /\ (exists es',
        Forall (fun e => completion e = true) es'
        /\ isPlaying (this (run es' w)) = false
        /\ device (playlog (run es' w)) = quiet
        /\ started (playlog (run es' w)) = accepted w).
Proof.
  intros Hes. cbv zeta.
  destruct (run_inv es (initial u) Hes (initial_inv u)) as (Hinv & Hsub & Heq).
  change (accepted (initial u) ++ arrivals es (initial u))%list
    with (arrivals es (initial u)) in Hsub, Heq.
  destruct (playback_inv_device _ Hinv) as (Hdev & Hact).
  split; [exact Hdev|]. split; [exact Hact|]. split; [exact Hsub|]. split; [exact Heq|].
  split; [intros s d; apply enqueue_while_playing | apply playback_completes; exact Hinv].
Qed.

End Playback.

(** ** Closed instances and counterexamples *)

Section Instances.

Import AIVoiceInterface Scenarios.

Lemma unparsable_and_unknown_frames_are_dropped_witness :
  ws_onmessage json_parse config (TextFrame "not json") established
  = (log_console (console_error "Error parsing message:") established, None)
  /\ ws_onmessage json_parse config (frame [("type", JStr "pong")]) established
     = (log_console (console_log "Received message:") established, None)
  /\ ws_onmessage json_parse config (TextFrame "null") established
     = (log_console (console_error "Error parsing message:") established, None).
Proof.
  split; [|split].
  - apply (proj1 (unparsable_and_unknown_frames_are_dropped json_parse config
                    "not json" established)).
    reflexivity.
  - apply (proj1 (proj2 (unparsable_and_unknown_frames_are_dropped json_parse config
                    (JSON_stringify (JObj [("type", JStr "pong")])) established))
             (JObj [("type", JStr "pong")]) (JStr "pong")); reflexivity.
  - apply (proj2 (proj2 (unparsable_and_unknown_frames_are_dropped json_parse config
                    "null" established)) JNull); reflexivity.
Defined.

Lemma events_without_payload_are_dropped_witness :
  ws_onmessage json_parse config (frame [("type", JStr "error")]) established
  = (log_console (console_log "Received message:") established, None)
  /\ ws_onmessage json_parse config
       (frame [("type", JStr "transcription"); ("text", JStr EmptyString)]) established
     = (log_console (console_log "Received message:") established, None).
Proof.
  split.
  - apply (events_without_payload_are_dropped json_parse config
             (JSON_stringify (JObj [("type", JStr "error")]))
             (JObj [("type", JStr "error")]) (JStr "error") "message" established);
      [reflexivity | reflexivity | reflexivity | left; reflexivity].
  - apply (events_without_payload_are_dropped json_parse config
             (JSON_stringify (JObj [("type", JStr "transcription"); ("text", JStr EmptyString)]))
             (JObj [("type", JStr "transcription"); ("text", JStr EmptyString)])
             (JStr "transcription") "text" established);
      [reflexivity | reflexivity | reflexivity | right; reflexivity].
Defined.


Lemma handshake_then_session_id_witness :
  getSessionId (Client.step json_parse config connectRejected recordingRejected
                  (WsMessage 0 (TextFrame session_initialized_abc))
                  (Client.run json_parse config connectRejected recordingRejected
                     [Connect 2 1; WsOpen 0] (initial mounted)))
  = JStr "abc".
Proof.
  exact (proj1 (proj2 (proj2 (proj2
           (handshake_then_session_id json_parse config connectRejected recordingRejected
              mounted eq_refl))))).
Defined.

Lemma session_id_assignment_witness :
  getSessionId (Scenarios.run [WsMessage 0 (frame [("type", JStr "session_initialized");
                                                   ("session_id", JStr "xyz")])] established)
  = JStr "xyz"
  /\ getSessionId (Scenarios.run [WsMessage 0 (frame [("type", JStr "heartbeat")])] established)
     = JStr "abc".
Proof.
  pose proof (session_id_assignment json_parse config connectRejected recordingRejected
                established) as (H1 & H2 & _).
  split.
  - refine (H1 0 _ (JSON_stringify (JObj [("type", JStr "session_initialized");
                                          ("session_id", JStr "xyz")]))
               (JObj [("type", JStr "session_initialized"); ("session_id", JStr "xyz")])
               _ _ _ _); reflexivity.
  - refine (H2 0 (frame [("type", JStr "heartbeat")]) _).
    cbn. intros message Hm. vm_compute in Hm. injection Hm as <-. discriminate.
Defined.

(** C9 refuted on the code: two [session_initialized] events on one
    connection assign the session id twice, and after the transport has
    closed the connection the session id is still the old one. *)
Lemma session_id_reassigned_and_kept_after_close :
  getSessionId established = JStr "abc"
  /\ getSessionId (Scenarios.run [WsMessage 0 (frame [("type", JStr "session_initialized");
                                                      ("session_id", JStr "xyz")])] established)
     = JStr "xyz"
  /\ readyState <$> (sockets (Scenarios.run [WsClose 0] established) !! 0) = Some CLOSED
  /\ getSessionId (Scenarios.run [WsClose 0] established) = JStr "abc"
  /\ getSessionId (Scenarios.run [WsClose 0] established) <> JNull.
Proof. vm_compute. repeat split. discriminate. Qed.

Lemma agent_speaking_shows_speaking_and_keeps_capture_witness :
  status (ui (Scenarios.run [WsMessage 0 agent_speaking_hello] capturing_world)) = speaking
  /\ capturing (Scenarios.run [WsMessage 0 agent_speaking_hello] capturing_world)
     = capturing capturing_world.
Proof.
  pose proof (agent_speaking_shows_speaking_and_keeps_capture json_parse
                (JSON_stringify (JObj [("type", JStr "agent_speaking"); ("text", JStr "hello")]))
                (JObj [("type", JStr "agent_speaking"); ("text", JStr "hello")])
                (JStr "hello") 0
                {| readyState := OPEN;
                   sent := [TextData ("{" ++ q "business_id" ++ ":2," ++ q "user_id" ++ ":1}")];
                   businessId := 2; userId := 1; origin := ByCaller; promise := Resolved |}
                capturing_world eq_refl eq_refl eq_refl eq_refl eq_refl eq_refl)
    as (H1 & _ & _ & _ & _ & H6 & _).
  split; [exact H1 | exact H6].
Defined.

(** C5 refuted on the code: the user is speaking (the recorder records),
    [{"type":"agent_speaking","text":"hello"}] arrives, the status becomes
    [speaking], and the recorder still records; the component's effect,
    run again, leaves it recording. *)
Lemma agent_speaking_leaves_recorder_running :
  capturing capturing_world = true
  /\ status (ui capturing_world) = listening
  /\ status (ui (Scenarios.run [WsMessage 0 agent_speaking_hello] capturing_world)) = speaking
  /\ mediaRecorder (this (Scenarios.run [WsMessage 0 agent_speaking_hello] capturing_world))
     = Some 0
  /\ recorders (Scenarios.run [WsMessage 0 agent_speaking_hello] capturing_world) !! 0
     = Some recording
  /\ capturing (listeningEffect true true
                  (Scenarios.run [WsMessage 0 agent_speaking_hello] capturing_world)) = true.
Proof. vm_compute. repeat split. Qed.

Lemma silence_timer_fires_once_witness :
  turnEndTimer (this (AIVoiceInterface.step json_parse (BlobRead 0) chunk_pending))
  = Some (nextTimer chunk_pending)
  /\ turn_ends (AIVoiceInterface.run json_parse
                  ([Elapse 2000; TimerFire (nextTimer chunk_pending)] ++ [Elapse 5000])%list
                  (AIVoiceInterface.step json_parse (BlobRead 0) chunk_pending))
     = S (turn_ends (AIVoiceInterface.step json_parse (BlobRead 0) chunk_pending)).
Proof.
  assert (timers_wf chunk_pending) as Hwf by (vm_compute; repeat split; constructor).
  assert (Client.isConnected (this chunk_pending) = true) as Hc by (vm_compute; reflexivity).
  assert (ws (this chunk_pending) = Some 0) as Hws by (vm_compute; reflexivity).
  assert (sockets chunk_pending !! 0 = Some handshaken) as Hs by (vm_compute; reflexivity).
  assert (blobReads chunk_pending !! 0 = Some chunkA) as Hb by (vm_compute; reflexivity).
  destruct (silence_timer_fires_once json_parse config connectRejected recordingRejected
              0 chunkA 0 handshaken chunk_pending Hwf Hc Hws Hs eq_refl Hb)
    as (H1 & _ & _ & H4).
  split; [exact H1|].
  exact (H4 2000%Z [Elapse 5000] ltac:(unfold silenceDuration; lia)
            ltac:(repeat constructor)).
Defined.

(** C3 refuted on the code: the recorder has produced a chunk and then
    stalls.  After 2000 ms the timeout sends one [turn_end]; two more full
    silence periods later still only that one has been sent, and no timer
    is pending that could send another.  (And a chunk produced while the
    socket is closed arms no silence timeout at all.) *)
Lemma silence_timer_does_not_rearm :
  turn_ends (Scenarios.run [DataAvailable 0 chunkA; BlobRead 0; Elapse 2000; TimerFire 1]
               capturing_world) = 1
  /\ turn_ends (Scenarios.run [DataAvailable 0 chunkA; BlobRead 0; Elapse 2000; TimerFire 1;
                               Elapse 2000; TimerFire 1; Elapse 2000; TimerFire 1; TimerFire 2]
                  capturing_world) = 1
  /\ timers (Scenarios.run [DataAvailable 0 chunkA; BlobRead 0; Elapse 2000; TimerFire 1;
                            Elapse 2000; TimerFire 1; Elapse 2000; TimerFire 1; TimerFire 2]
               capturing_world) = []
  /\ capturing (Scenarios.run [WsClose 0; DataAvailable 0 chunkA; BlobRead 0] capturing_world)
     = true
  /\ List.filter is_turn_end_timer
       (timers (Scenarios.run [WsClose 0; DataAvailable 0 chunkA; BlobRead 0] capturing_world))
     = [].
Proof. vm_compute. repeat split. Qed.

Lemma reconnects_are_bounded_witness :
  reconnects (closures json_parse config connectRejected recordingRejected 4 established) = 3
  /\ pendingReconnect (closures json_parse config connectRejected recordingRejected 4 established)
     = None.
Proof.
  pose proof (reconnects_are_bounded json_parse config connectRejected recordingRejected
                4 0
                {| readyState := OPEN;
                   sent := [TextData ("{" ++ q "business_id" ++ ":2," ++ q "user_id" ++ ":1}")];
                   businessId := 2; userId := 1; origin := ByCaller; promise := Resolved |}
                established) as H.
  destruct H as (_ & H2 & H3 & _).
  - vm_compute. repeat split; constructor.
  - vm_compute. reflexivity.
  - intros f Hf u. injection Hf as <-. reflexivity.
  - vm_compute. reflexivity.
  - vm_compute. reflexivity.
  - vm_compute. reflexivity.
  - split; [exact H2 | exact H3].
Defined.

(** C4 refuted on the code: the connection was up and is then closed four
    times in a row, each retry failing (with and without an [error] event
    before the [close]).  Three reconnects are attempted and none is
    pending, but the session is not in an error state: the component shows
    [idle], and the closures alone reach no error callback. *)
Lemma retries_exhausted_without_error_state :
  reconnects (closures json_parse config connectRejected recordingRejected 4 established) = 3
  /\ timers (closures json_parse config connectRejected recordingRejected 4 established) = []
  /\ status (ui (closures json_parse config connectRejected recordingRejected 4 established))
     = idle
  /\ calls (closures json_parse config connectRejected recordingRejected 4 established)
     = [CallSessionInitialized (JStr "abc");
        CallDisconnected; CallDisconnected; CallDisconnected; CallDisconnected]
  /\ status (ui (Scenarios.run
                   [WsClose 0; Elapse 2000; TimerFire 1;
                    WsError 1; WsClose 1; Elapse 2000; TimerFire 2;
                    WsError 2; WsClose 2; Elapse 2000; TimerFire 3;
                    WsError 3; WsClose 3; Elapse 2000; TimerFire 4] established))
     = idle
  /\ length (sockets (Scenarios.run
                   [WsClose 0; Elapse 2000; TimerFire 1;
                    WsError 1; WsClose 1; Elapse 2000; TimerFire 2;
                    WsError 2; WsClose 2; Elapse 2000; TimerFire 3;
                    WsError 3; WsClose 3; Elapse 2000; TimerFire 4] established))
     = 4.
Proof. vm_compute. repeat split. Qed.

Lemma playback_is_serial_and_in_order_witness :
  device (playlog (Client.run json_parse config connectRejected recordingRejected
                     two_chunks (initial mounted))) <> overlapped
  /\ accepted (Client.run json_parse config connectRejected recordingRejected
                 two_chunks (initial mounted))
     = Client.arrivals json_parse config connectRejected recordingRejected
         two_chunks (initial mounted).
Proof.
  assert (Forall (fun e => undisturbed e = true) two_chunks) as Hu by (repeat constructor).
  assert (Forall (fun e => decodes e = true) two_chunks) as Hd by (repeat constructor).
  destruct (playback_is_serial_and_in_order json_parse config connectRejected
              recordingRejected two_chunks mounted Hu) as (H1 & _ & _ & H4 & _).
  split; [exact H1 | exact (H4 Hd)].
Defined.

(** The run of the witness, spelled out: A is played to its end, then B. *)
Lemma two_chunks_played_in_order :
  playlog (Scenarios.run two_chunks (initial mounted))
  = [PlayStart 0 chunkA; PlayEnd 0 chunkA; PlayStart 0 chunkB; PlayEnd 0 chunkB]
  /\ Client.isPlaying (this (Scenarios.run two_chunks (initial mounted))) = false.
Proof. vm_compute. split; reflexivity. Qed.

(** C2 on the code: [clearAudioQueue()] is called while chunk A is
    sounding.  The queue is empty afterwards, but the source is not
    stopped and its loop stays suspended at its [await]; since [isPlaying]
    was reset, the next chunk starts a second activation, which starts B
    while A is sounding. *)
Lemma clear_mid_playback_overlaps :
  audioQueue (this cleared_mid_playback) = []
  /\ Client.isPlaying (this cleared_mid_playback) = false
  /\ device (playlog cleared_mid_playback) = sounding 0 chunkA
  /\ loops cleared_mid_playback = [AwaitEnded chunkA chunkA]
  /\ loops enqueued_after_clear = [AwaitEnded chunkA chunkA; AwaitEnded chunkB chunkB]
  /\ active_loops enqueued_after_clear = 2
  /\ playlog enqueued_after_clear = [PlayStart 0 chunkA; PlayStart 1 chunkB]
  /\ device (playlog enqueued_after_clear) = overlapped.
Proof. vm_compute. repeat split. Qed.

End Instances.
